(** * go-ipfs, package [repo/fsrepo/migrations]: [fetch.go] and [versions.go]

    A shallow embedding of the two files and of the pieces of the Go
    standard library and of [github.com/coreos/go-semver] they call,
    followed by the properties of the package.

    Conventions.  A Go [string] or [[]byte] is a [string] (one [ascii] per
    byte).  Go's [int], [int64] are [Z], with the range checks written out
    where the code has them.  A Go [(T, error)] result is [result T].  Calls
    that leave the process (daemon RPC, HTTP, file system, sub-process) are
    answered by an explicit environment record and logged, in order, in a
    trace of events. *)

From Stdlib Require Import ZArith List Bool Ascii String Lia.
From Stdlib Require Import Permutation Sorted DecimalString DecimalPos.
From Stdlib Require OrderedTypeEx.
Import ListNotations.

Local Open Scope string_scope.
Local Open Scope Z_scope.
Local Open Scope list_scope.

Set Implicit Arguments.

(* ================================================================= *)
(** ** Errors and results *)

(** Go [error] values, as far as the package builds or inspects them. *)
Inductive error : Type :=
| errors_New (msg : string)                    (* errors.New / fmt.Errorf *)
| PathError (op path : string) (err : error)   (* &os.PathError{...} *)
| ErrExist                                     (* os.ErrExist *)
| ErrNotExist                                  (* os.ErrNotExist *)
| ErrTooLong                                   (* bufio.ErrTooLong *)
| ErrSyntax                                    (* strconv.ErrSyntax *)
| ErrRange                                     (* strconv.ErrRange *)
| EOF                                          (* io.EOF *)
| ExternalError (msg : string).                (* any error of a collaborator *)

Inductive result (A : Type) : Type :=
| Ok (a : A)
| Err (e : error).
Arguments Ok {A} a.
Arguments Err {A} e.

Definition is_ok {A} (r : result A) : bool :=
  match r with Ok _ => true | Err _ => false end.

(** [err.Error()]. *)
Fixpoint Error_string (e : error) : string :=
  match e with
  | errors_New m => m
  | PathError op p e' => op ++ " " ++ p ++ ": " ++ Error_string e'
  | ErrExist => "file already exists"
  | ErrNotExist => "file does not exist"
  | ErrTooLong => "bufio.Scanner: token too long"
  | ErrSyntax => "invalid syntax"
  | ErrRange => "value out of range"
  | EOF => "EOF"
  | ExternalError m => m
  end.

(** [os.IsNotExist]: unwraps a [PathError] and compares with [ErrNotExist]. *)
Definition underlyingError (e : error) : error :=
  match e with
  | PathError _ _ e' => e'
  | _ => e
  end.

Definition os_IsNotExist (e : option error) : bool :=
  match e with
  | None => false
  | Some e' => match underlyingError e' with ErrNotExist => true | _ => false end
  end.

(* ================================================================= *)
(** ** Package [strings] and byte-string helpers *)

Module strings.

Definition len (s : string) : Z := Z.of_nat (String.length s).

(** [s[:n]] and [s[n:]] for a count kept in [Z] (counts here reach 2^29). *)
Fixpoint take (n : Z) (s : string) : string :=
  match s with
  | EmptyString => EmptyString
  | String c s' => if n <=? 0 then EmptyString else String c (take (n - 1) s')
  end.

Fixpoint drop (n : Z) (s : string) : string :=
  match s with
  | EmptyString => EmptyString
  | String c s' => if n <=? 0 then s else drop (n - 1) s'
  end.

(** [strings.HasPrefix(s, p)]. *)
Definition HasPrefix (s p : string) : bool := String.prefix p s.

(** [strings.Contains(s, substr)]. *)
Fixpoint Contains (s substr : string) : bool :=
  HasPrefix s substr ||
  match s with
  | EmptyString => false
  | String _ s' => Contains s' substr
  end.

Fixpoint mem (c : ascii) (cutset : string) : bool :=
  match cutset with
  | EmptyString => false
  | String d r => Ascii.eqb c d || mem c r
  end.

(** [strings.TrimLeft(s, cutset)]: removes every leading byte of [s] that
    occurs in [cutset] (the cutsets of this package are ASCII). *)
Fixpoint TrimLeft (s cutset : string) : string :=
  match s with
  | EmptyString => EmptyString
  | String c s' => if mem c cutset then TrimLeft s' cutset else s
  end.

(** The first occurrence of the byte [d] splits [s] in two:
    what [strings.SplitN(s, d, 2)] returns when it returns two parts. *)
Fixpoint cut (s : string) (d : ascii) : option (string * string) :=
  match s with
  | EmptyString => None
  | String c s' =>
      if Ascii.eqb c d then Some (EmptyString, s')
      else match cut s' d with
           | Some (a, b) => Some (String c a, b)
           | None => None
           end
  end.

(** [strings.Split(s, d)] for a one-byte separator: never empty. *)
Fixpoint Split (s : string) (d : ascii) : list string :=
  match s with
  | EmptyString => [EmptyString]
  | String c s' =>
      if Ascii.eqb c d then EmptyString :: Split s' d
      else match Split s' d with
           | p :: ps => String c p :: ps
           | [] => [String c EmptyString]
           end
  end.

(** [strings.SplitN(s, d, n)] for a one-byte separator and [n > 0],
    [n] given as the number of cuts still allowed plus one. *)
Fixpoint SplitN (s : string) (d : ascii) (n : nat) : list string :=
  match n with
  | O => []
  | S O => [s]
  | S n' =>
      match cut s d with
      | Some (a, b) => a :: SplitN b d n'
      | None => [s]
      end
  end.

(** [strings.Repeat(s, count)]. *)
Fixpoint Repeat (s : string) (count : nat) : string :=
  match count with
  | O => EmptyString
  | S n => s ++ Repeat s n
  end.

End strings.

(* ================================================================= *)
(** ** Package [fmt]: [Sprintf] with the verbs [%s], [%d], [%v] *)

Module fmt.

Inductive arg : Type :=
| S_ (s : string)
| D_ (z : Z).

(** [%d] of an integer. *)
Definition itoa (z : Z) : string := NilZero.string_of_int (Z.to_int z).

Definition show (a : arg) : string :=
  match a with
  | S_ s => s
  | D_ z => itoa z
  end.

(** A verb consumes the next operand; a missing operand prints
    [%!v(MISSING)], as Go does. *)
Fixpoint Sprintf (format : string) (args : list arg) : string :=
  match format with
  | EmptyString => EmptyString
  | String "%" (String v rest) =>
      match args with
      | a :: args' => show a ++ Sprintf rest args'
      | [] => "%!" ++ String v "(MISSING)" ++ Sprintf rest []
      end
  | String c rest => String c (Sprintf rest args)
  end.

End fmt.

(* ================================================================= *)
(** ** Package [strconv]: [ParseInt(s, 10, 64)] and [Atoi] *)

Module strconv.

Definition digit (c : ascii) : option Z :=
  let n := Z.of_N (N_of_ascii c) in
  if (48 <=? n) && (n <=? 57) then Some (n - 48) else None.

(** [ParseUint(s, 10, 64)] on the bytes after the sign; [acc] is the value
    read so far.  Bytes are taken from the left: one that is not a digit
    is a syntax error, a digit that takes the value above 2^64-1 a range
    error. *)
Fixpoint digits (s : string) (acc : Z) : result Z :=
  match s with
  | EmptyString => Ok acc
  | String c s' =>
      match digit c with
      | None => Err ErrSyntax
      | Some d =>
          if 2 ^ 64 <=? 10 * acc + d then Err ErrRange
          else digits s' (10 * acc + d)
      end
  end.

Definition ParseUint (s : string) : result Z :=
  match s with
  | EmptyString => Err ErrSyntax
  | _ => digits s 0
  end.

Definition ParseInt (s : string) : result Z :=
  match s with
  | EmptyString => Err ErrSyntax
  | String c s' =>
      let neg := Ascii.eqb c "-" in
      let s0 := if Ascii.eqb c "+" || neg then s' else s in
      match ParseUint s0 with
      | Err e => Err e
      | Ok un =>
          let cutoff := 2 ^ 63 in
          if negb neg && (cutoff <=? un) then Err ErrRange
          else if neg && (cutoff <? un) then Err ErrRange
          else Ok (if neg then - un else un)
      end
  end.

(** [Atoi] is [ParseInt(s, 10, 0)] with a 64-bit [int]. *)
Definition Atoi (s : string) : result Z := ParseInt s.

End strconv.

(* ================================================================= *)
(** ** Package [bufio]: a [Scanner] with the default split function
       [ScanLines] and the default buffer *)

Module bufio.

Definition MaxScanTokenSize : Z := 64 * 1024.

(** [dropCR]: a line loses one trailing carriage return. *)
Fixpoint dropCR (data : string) : string :=
  match data with
  | EmptyString => EmptyString
  | String c EmptyString => if Ascii.eqb c "013" then EmptyString else data
  | String c rest => String c (dropCR rest)
  end.

(** The lines of [data]: each one ends at a newline, the last one may end
    with the data; nothing follows a final newline. *)
Fixpoint lines (data : string) : list string :=
  match data with
  | EmptyString => []
  | String c rest =>
      if Ascii.eqb c "010" then EmptyString :: lines rest
      else match lines rest with
           | l :: ls => String c l :: ls
           | [] => [String c EmptyString]
           end
  end.

(** The tokens handed out by the successive calls of [Scan]: a line and
    its newline must fit the buffer, which never grows beyond
    [MaxScanTokenSize]; at the first line that does not fit, [Scan]
    returns false for good and [Err] is [ErrTooLong]. *)
Fixpoint tokens (ls : list string) : list string * option error :=
  match ls with
  | [] => ([], None)
  | l :: ls' =>
      if MaxScanTokenSize <=? strings.len l then ([], Some ErrTooLong)
      else let (ts, e) := tokens ls' in (dropCR l :: ts, e)
  end.

(** A whole scan of a reader that delivers [data] and then fails with
    [rerr] ([None] or [Some EOF]: plain end of data).  The result is the
    list of the [Text()] of every successful [Scan()], and the final
    [Err()], which hides [io.EOF]. *)
Definition ScanAll (data : string) (rerr : option error)
  : list string * option error :=
  let (ts, e) := tokens (lines data) in
  (ts, match e with
       | Some e' => Some e'
       | None => match rerr with
                 | Some EOF => None
                 | other => other
                 end
       end).

End bufio.

(* ================================================================= *)
(** ** Package [sort] *)

Module sort.

(** [data.Less(i, j)], as a test on the elements at [i] and [j]. *)
Definition Less (A : Type) : Type := A -> A -> bool.

(** [sort.Reverse(data)]: [Less(i, j)] answers [data.Less(j, i)]. *)
Definition Reverse {A} (less : Less A) : Less A := fun x y => less y x.

(** [sort.Sort] promises a sorted rearrangement when [Less] is a strict
    weak order, and no more ("the sort is not guaranteed to be stable");
    its algorithm has changed between Go releases.  A sorting function
    is therefore a parameter of the code that sorts, and [Sorts] is what
    is known of it. *)
Definition Sorter : Type := forall A : Type, Less A -> list A -> list A.

Record StrictWeak {A} (less : Less A) : Prop := {
  less_asym : forall x y, less x y = true -> less y x = false;
  less_negtrans : forall x y z,
      less x y = false -> less y z = false -> less x z = false
}.



(** [insertionSort(data, a, b)]: every release of Go sorts a slice of at
    most six elements with it alone.

      for i := a + 1; i < b; i++ {
        for j := i; j > a && data.Less(j, j-1); j-- { data.Swap(j, j-1) }
      }

    [sink less x before] is the inner loop: [before] holds the elements
    in front of [x], nearest first, and [x] moves towards the front
    while it is [Less] than its neighbour. *)
Fixpoint sink {A} (less : Less A) (x : A) (before : list A) : list A :=
  match before with
  | [] => [x]
  | y :: before' =>
      if less x y then y :: sink less x before' else x :: before
  end.

Definition insertionSort : Sorter :=
  fun A less l => rev (fold_left (fun before x => sink less x before) l []).

End sort.

(* ================================================================= *)
(** ** Package [github.com/coreos/go-semver/semver] (v0.3.0) *)

Module semver.

Record Version : Type := {
  Major : Z;
  Minor : Z;
  Patch : Z;
  PreRelease : string;
  Metadata : string
}.

(** [splitOff(&input, delim)]: the new [input] and the value split off. *)
Definition splitOff (input : string) (delim : ascii) : string * string :=
  match strings.SplitN input delim 2 with
  | [a; b] => (a, b)
  | _ => (input, EmptyString)
  end.

Definition isIdentChar (c : ascii) : bool :=
  let n := Z.of_N (N_of_ascii c) in
  ((48 <=? n) && (n <=? 57)) || ((65 <=? n) && (n <=? 90))
  || ((97 <=? n) && (n <=? 122)) || Ascii.eqb c "-".

Fixpoint allIdentChars (s : string) : bool :=
  match s with
  | EmptyString => true
  | String c s' => isIdentChar c && allIdentChars s'
  end.

(** [reIdentifier.MatchString(id)] for the expression
    [^[0-9A-Za-z-]+(\.[0-9A-Za-z-]+)*$]. *)
Definition reIdentifier (id : string) : bool :=
  forallb (fun part => negb (String.eqb part EmptyString) && allIdentChars part)
          (strings.Split id ".").

Definition validateIdentifier (id : string) : option error :=
  if negb (String.eqb id EmptyString) && negb (reIdentifier id)
  then Some (errors_New (id ++ " is not a valid semver identifier"))
  else None.

(** [NewVersion] ([Version.Set]). *)
Definition NewVersion (version : string) : result Version :=
  let '(version, metadata) := splitOff version "+" in
  let '(version, preRelease) := splitOff version "-" in
  match strings.SplitN version "." 3 with
  | [p0; p1; p2] =>
      match validateIdentifier preRelease with
      | Some e =>
          Err (errors_New ("failed to validate pre-release: " ++ Error_string e))
      | None =>
      match validateIdentifier metadata with
      | Some e =>
          Err (errors_New ("failed to validate metadata: " ++ Error_string e))
      | None =>
      match strconv.ParseInt p0 with
      | Err e => Err e
      | Ok major =>
      match strconv.ParseInt p1 with
      | Err e => Err e
      | Ok minor =>
      match strconv.ParseInt p2 with
      | Err e => Err e
      | Ok patch =>
          Ok {| Major := major; Minor := minor; Patch := patch;
                PreRelease := preRelease; Metadata := metadata |}
      end end end end end
  | _ => Err (errors_New (version ++ " is not in dotted-tri format"))
  end.

(** [Version.String]. *)
Definition String_ (v : Version) : string :=
  fmt.Sprintf "%d.%d.%d" [fmt.D_ (Major v); fmt.D_ (Minor v); fmt.D_ (Patch v)]
  ++ (if String.eqb (PreRelease v) EmptyString then EmptyString
      else fmt.Sprintf "-%s" [fmt.S_ (PreRelease v)])
  ++ (if String.eqb (Metadata v) EmptyString then EmptyString
      else fmt.Sprintf "+%s" [fmt.S_ (Metadata v)]).

(** [Version.Slice] and [PreRelease.Slice]. *)
Definition Slice (v : Version) : list Z := [Major v; Minor v; Patch v].

Definition PreRelease_Slice (p : string) : list string := strings.Split p ".".

(** [recursiveCompare]; [None] is the run-time panic of [versionB[0]] on
    an empty slice. *)
Fixpoint recursiveCompare (versionA versionB : list Z) : option Z :=
  match versionA with
  | [] => Some 0
  | a :: restA =>
      match versionB with
      | [] => None
      | b :: restB =>
          if a >? b then Some 1
          else if a <? b then Some (-1)
          else recursiveCompare restA restB
      end
  end.

(** Go compares strings byte by byte. *)
Definition string_gt (a b : string) : bool :=
  match String.compare a b with Gt => true | _ => false end.
Definition string_lt (a b : string) : bool :=
  match String.compare a b with Lt => true | _ => false end.

Fixpoint recursivePreReleaseCompare (versionA versionB : list string) : Z :=
  match versionA with
  | [] => match versionB with
          | _ :: _ => -1
          | [] => 0
          end
  | a :: restA =>
      match versionB with
      | [] => 1
      | b :: restB =>
          let '(aI, aInt) := match strconv.Atoi a with
                             | Ok i => (i, true) | Err _ => (0, false) end in
          let '(bI, bInt) := match strconv.Atoi b with
                             | Ok i => (i, true) | Err _ => (0, false) end in
          if aInt && negb bInt then -1
          else if negb aInt && bInt then 1
          else if aInt && bInt && (aI >? bI) then 1
          else if aInt && bInt && (aI <? bI) then -1
          else if string_gt a b then 1
          else if string_lt a b then -1
          else recursivePreReleaseCompare restA restB
      end
  end.

Definition preReleaseCompare (versionA versionB : Version) : Z :=
  let a := PreRelease versionA in
  let b := PreRelease versionB in
  if (strings.len a =? 0) && (strings.len b >? 0) then 1
  else if (strings.len b =? 0) && (strings.len a >? 0) then -1
  else recursivePreReleaseCompare (PreRelease_Slice a) (PreRelease_Slice b).

(** [Version.Compare]: -1, 0 or +1. *)
Definition Compare (v versionB : Version) : Z :=
  match recursiveCompare (Slice v) (Slice versionB) with
  | Some cmp => if negb (cmp =? 0) then cmp else preReleaseCompare v versionB
  | None => 0   (* not reached: both slices have three elements *)
  end.

Definition LessThan (v versionB : Version) : bool := Compare v versionB <? 0.

(** [Versions.Less(i, j)]. *)
Definition Versions_Less : sort.Less Version := LessThan.

End semver.

(* ================================================================= *)
(** ** Package [io]: [ReadCloser] and [LimitReader] *)

Module io.

(** An [io.ReadCloser] whose state is a value of [S].  [Read s n] is
    [Read(p)] with [len(p) = n]: the bytes stored in [p], the error, and
    the state afterwards. *)
Class ReadCloser (S : Type) : Type := {
  Read : S -> Z -> (string * option error) * S;
  Close : S -> option error * S
}.

(** The contract of [io.Reader]: [0 <= n <= len(p)] bytes are returned. *)
Definition ReaderContract (S : Type) `{ReadCloser S} : Prop :=
  forall (s : S) (n : Z), 0 <= n -> strings.len (fst (fst (Read s n))) <= n.

(** [io.LimitedReader]. *)
Record LimitedReader (S : Type) : Type := {
  R : S;   (* underlying reader *)
  N : Z    (* max bytes remaining *)
}.

Definition LimitReader {S} (r : S) (n : Z) : LimitedReader S :=
  {| R := r; N := n |}.

(** [LimitedReader.Read]:

      if l.N <= 0 { return 0, EOF }
      if int64(len(p)) > l.N { p = p[0:l.N] }
      n, err = l.R.Read(p)
      l.N -= int64(n)                                               *)
Definition LimitedReader_Read {S} `{ReadCloser S}
    (l : LimitedReader S) (lenp : Z)
  : (string * option error) * LimitedReader S :=
  if N l <=? 0 then ((EmptyString, Some EOF), l)
  else
    let lenp := if lenp >? N l then N l else lenp in
    let '((data, err), r') := Read (R l) lenp in
    ((data, err), {| R := r'; N := N l - strings.len data |}).

End io.

(* ================================================================= *)
(** ** The world outside the process *)

(** A byte source of the outside world (an HTTP response body, the output
    of a daemon request): the bytes it still has to deliver, the error that
    ends them ([None]: end of data), and whether it has been closed. *)
Record Body : Type := {
  pending : string;
  failure : option error;
  closed : bool
}.

Definition Body_Read (b : Body) (n : Z) : (string * option error) * Body :=
  match pending b with
  | EmptyString =>
      ((EmptyString, Some match failure b with Some e => e | None => EOF end), b)
  | _ =>
      ((strings.take n (pending b), None),
       {| pending := strings.drop n (pending b);
          failure := failure b; closed := closed b |})
  end.

Definition Body_Close (b : Body) : option error * Body :=
  (None, {| pending := pending b; failure := failure b; closed := true |}).

#[export] Instance Body_ReadCloser : io.ReadCloser Body :=
  {| io.Read := Body_Read; io.Close := Body_Close |}.

(** [api.Shell], [api.Response], [http.Response], [os.FileInfo]. *)
Record Shell : Type := { url : string; timeout : Z }.
Record Response : Type := { Output : Body; Error : option error }.
Record HTTPResponse : Type := { StatusCode : Z; Status : string; RespBody : Body }.
Record FileInfo : Type := { IsDir : bool }.

(** How a sub-process ended, for [exec.Cmd.CombinedOutput]. *)
Inductive ProcResult : Type :=
| NotStarted (e : error)
| Exited (output : string) (status : Z).

(** The answers of the outside world, and the parts of the program that
    are not in the two files: the constants of the Go runtime, the
    package's [ipfsDistPath], [ApiEndpoint], [exeName] and [unpackArchive],
    and [path.Join]. *)
Record Env : Type := {
  GOOS : string;
  GOARCH : string;
  path_Join : list string -> string;
  (* elsewhere in package migrations *)
  ipfsDistPath : string;
  ApiEndpoint : string -> result string;
  exeName : string -> string;
  unpackArchive : string -> string -> string -> string -> string -> option error;
  (* go-ipfs-api *)
  IsUp : Shell -> bool;
  Send : Shell -> string -> string -> result Response;
  (* net/http *)
  NewRequestWithContext : string -> string -> option error;
  Do : string -> string -> list (string * string) -> result HTTPResponse;
  (* os, io/ioutil *)
  Stat : string -> result FileInfo;
  TempDir : string -> string -> result string;
  Create : string -> option error;
  Write : string -> string -> option error;
  Chmod : string -> Z -> option error;
  (* os/exec *)
  Run : string -> list string -> ProcResult
}.

(** What the process does to the outside world, in order. *)
Inductive Event : Type :=
| EvApiEndpoint (ipfsDir : string)
| EvIsUp (sh : Shell)
| EvRequest (sh : Shell) (command arg : string)
| EvLog (msg : string)
| EvHTTP (method url : string) (header : list (string * string))
| EvClose (b : Body)
| EvStat (name : string)
| EvTempDir (dir pattern : string)
| EvRemoveAll (path : string)
| EvCreate (name : string)
| EvWrite (name data : string)
| EvFileClose (name : string)
| EvUnpack (arcPath atype dist binName out : string)
| EvChmod (name : string) (mode : Z)
| EvCommand (name : string) (args : list string).

(* ================================================================= *)
(** ** A monad for traced, fallible steps *)

Definition M (A : Type) : Type := list Event * result A.

Definition ret {A} (a : A) : M A := ([], Ok a).
Definition fail {A} (e : error) : M A := ([], Err e).
Definition emit (ev : Event) : M unit := ([ev], Ok tt).

Definition bind {A B} (m : M A) (k : A -> M B) : M B :=
  match m with
  | (t, Ok a) => let (t', r) := k a in (t ++ t', r)
  | (t, Err e) => (t, Err e)
  end.

(** [x, err := f()]: the error is a value the caller looks at. *)
Definition try {A} (m : M A) : M (result A) := (fst m, Ok (snd m)).

(** [defer cleanup()]: [cleanup] runs when [body], the rest of the
    function, returns, whatever it returns; its own result is dropped. *)
Definition defer {A} (cleanup : M unit) (body : M A) : M A :=
  let (t, r) := body in (t ++ fst cleanup, r).

Declare Scope go_scope.
Delimit Scope go_scope with go.
Notation "x <- m ;; k" := (bind m (fun x => k))
  (at level 61, m at next level, right associativity) : go_scope.
Notation "m ;;; k" := (bind m (fun _ => k))
  (at level 61, right associativity) : go_scope.
Local Open Scope go_scope.

Definition trace {A} (m : M A) : list Event := fst m.
Definition outcome {A} (m : M A) : result A := snd m.

(* ================================================================= *)
(** ** [fetch.go] *)

Definition gatewayURL : string := "https://ipfs.io".
Definition apiFile : string := "api".
(** [5 * time.Minute], in nanoseconds. *)
Definition shellTimeOut : Z := 5 * (60 * 1000000000).
(** Maximum download size. *)
Definition fetchSizeLimit : Z := 1024 * 1024 * 512.

(** [type limitReadCloser struct { io.Reader; io.Closer }].  Both fields of
    the value built by [newLimitReadCloser] refer to the one object [rc]:
    the [Closer] is [rc] and the [Reader] is a [LimitedReader] whose [R] is
    [rc].  The state of that shared object is kept once, in [io.R]. *)
Record limitReadCloser (S : Type) : Type := {
  Reader : io.LimitedReader S
}.

Definition newLimitReadCloser {S} (rc : S) (limit : Z) : limitReadCloser S :=
  {| Reader := io.LimitReader rc limit |}.

(** The promoted methods: [Read] is the [LimitedReader]'s, [Close] is the
    underlying object's. *)
Definition limitReadCloser_Read {S} `{io.ReadCloser S}
    (l : limitReadCloser S) (lenp : Z)
  : (string * option error) * limitReadCloser S :=
  let '(res, r') := io.LimitedReader_Read (Reader l) lenp in
  (res, {| Reader := r' |}).

Definition limitReadCloser_Close {S} `{io.ReadCloser S}
    (l : limitReadCloser S) : option error * limitReadCloser S :=
  let '(err, s') := io.Close (io.R (Reader l)) in
  (err, {| Reader := {| io.R := s'; io.N := io.N (Reader l) |} |}).

#[export] Instance limitReadCloser_ReadCloser {S} `{io.ReadCloser S}
  : io.ReadCloser (limitReadCloser S) :=
  {| io.Read := limitReadCloser_Read; io.Close := limitReadCloser_Close |}.

(** Successive reads with buffers of the given lengths: the chunks
    obtained and the state reached. *)
Fixpoint reads {S} `{io.ReadCloser S} (s : S) (lens : list Z)
  : list string * S :=
  match lens with
  | [] => ([], s)
  | n :: lens' =>
      let '((data, _), s') := io.Read s n in
      let '(chunks, s'') := reads s' lens' in
      (data :: chunks, s'')
  end.

(** Everything a stream over a [Body] delivers when it is read to its end,
    as [io.Copy], [ioutil.ReadAll] and a [bufio.Scanner] do, and the error
    that ends it ([None]: end of data). *)
Definition hideEOF (e : option error) : option error :=
  match e with
  | Some EOF => None
  | other => other
  end.

Definition Body_contents (b : Body) : string * option error :=
  (pending b, hideEOF (failure b)).

Definition contents (rc : limitReadCloser Body) : string * option error :=
  let l := Reader rc in
  (strings.take (io.N l) (pending (io.R l)),
   if io.N l <=? strings.len (pending (io.R l)) then None
   else hideEOF (failure (io.R l))).

Section Fetch.

Variable env : Env.

(** *** Calls that leave the process *)

Definition call_ApiEndpoint (ipfsDir : string) : M string :=
  ([EvApiEndpoint ipfsDir], ApiEndpoint env ipfsDir).

Definition sh_IsUp (sh : Shell) : M bool :=
  ([EvIsUp sh], Ok (IsUp env sh)).

Definition sh_Request_Send (sh : Shell) (command arg : string) : M Response :=
  ([EvRequest sh command arg], Send env sh command arg).

Definition log_Print (msg : string) : M unit := emit (EvLog msg).

Definition http_Do (method url : string) (header : list (string * string))
  : M HTTPResponse :=
  ([EvHTTP method url header], Do env method url header).

Definition Body_Close_call (b : Body) : M unit := emit (EvClose b).

Definition rc_Close (rc : limitReadCloser Body) : M unit :=
  Body_Close_call (io.R (Reader rc)).

(** *** [ipfsFetch] *)
Definition ipfsFetch (ipfsPath : string) : M (limitReadCloser Body) :=
  apiEp <- call_ApiEndpoint "" ;;
  let sh := {| url := apiEp; timeout := 0 |} in              (* api.NewShell *)
  let sh := {| url := url sh; timeout := shellTimeOut |} in  (* sh.SetTimeout *)
  up <- sh_IsUp sh ;;
  if negb up then fail (errors_New "ipfs api shell not up")
  else
    resp <- sh_Request_Send sh "cat" ipfsPath ;;
    match Error resp with
    | Some e => fail e
    | None => ret (newLimitReadCloser (Output resp) fetchSizeLimit)
    end.

(** *** [httpFetch] *)
Definition httpFetch (url : string) : M (limitReadCloser Body) :=
  match NewRequestWithContext env "GET" url with
  | Some err =>
      fail (errors_New (fmt.Sprintf "http.NewRequest error: %s"
                          [fmt.S_ (Error_string err)]))
  | None =>
      let header := [("User-Agent", "go-ipfs")] in
      r <- try (http_Do "GET" url header) ;;
      match r with
      | Err err =>
          fail (errors_New (fmt.Sprintf "http.DefaultClient.Do error: %s"
                              [fmt.S_ (Error_string err)]))
      | Ok resp =>
          if StatusCode resp >=? 400 then
            defer (Body_Close_call (RespBody resp))
              (let '(mes, err) := Body_contents (RespBody resp) in
               match err with
               | Some err =>
                   fail (errors_New (fmt.Sprintf "error reading error body: %s"
                                       [fmt.S_ (Error_string err)]))
               | None =>
                   fail (errors_New (fmt.Sprintf "GET %s error: %s: %s"
                                       [fmt.S_ url; fmt.S_ (Status resp); fmt.S_ mes]))
               end)
          else ret (newLimitReadCloser (RespBody resp) fetchSizeLimit)
      end
  end.

(** *** [fetch] *)
Definition fetch (ipfsPath : string) : M (limitReadCloser Body) :=
  r <- try (ipfsFetch ipfsPath) ;;
  match r with
  | Ok rc =>
      log_Print "using local ipfs daemon for transfer" ;;;
      ret rc
  | Err _ =>
      httpFetch (gatewayURL ++ ipfsPath)
  end.

(** *** [osWithVariant] *)

(** [exec.Command(name, args...).CombinedOutput()]. *)
Definition CombinedOutput (name : string) (args : list string)
  : M (string * option error) :=
  ([EvCommand name args],
   Ok match Run env name args with
      | NotStarted e => (EmptyString, Some e)
      | Exited out status =>
          (out, if status =? 0 then None
                else Some (ExternalError
                             (fmt.Sprintf "exit status %d" [fmt.D_ status])))
      end).

Definition osWithVariant : M string :=
  if negb (String.eqb (GOOS env) "linux") then ret (GOOS env)
  else
    r <- CombinedOutput "sh" ["-c"; "ldd --version || true"] ;;
    let '(out, err) := r in
    match err with
    | Some e => fail e
    | None =>
        (* scan := bufio.NewScanner(bytes.NewBuffer(out)) *)
        let '(lines, _) := bufio.ScanAll out None in
        if existsb (fun text => strings.Contains text "musl") lines
        then ret "linux-musl"
        else ret "linux"
    end.

(** *** [makeArchiveName], [makeIpfsPath] *)
Definition makeArchiveName (name ver atype : string) : string :=
  fmt.Sprintf "%s_%s_%s-%s.%s"
    [fmt.S_ name; fmt.S_ ver; fmt.S_ (GOOS env); fmt.S_ (GOARCH env); fmt.S_ atype].

Definition makeIpfsPath (dist ver arcName : string) : string :=
  fmt.Sprintf "%s/%s/%s/%s"
    [fmt.S_ (ipfsDistPath env); fmt.S_ dist; fmt.S_ ver; fmt.S_ arcName].

(** *** [FetchBinary] *)

Definition os_Stat (name : string) : M (result FileInfo) :=
  ([EvStat name], Ok (Stat env name)).

Definition ioutil_TempDir (dir pattern : string) : M string :=
  ([EvTempDir dir pattern], TempDir env dir pattern).

Definition os_RemoveAll (path : string) : M unit := emit (EvRemoveAll path).

Definition os_Create (name : string) : M unit :=
  ([EvCreate name],
   match Create env name with Some e => Err e | None => Ok tt end).

Definition File_Close (name : string) : M unit := emit (EvFileClose name).

(** [io.Copy(dst, src)] into the file [name]: what [src] delivers is
    written to the file; a failed write or a failed read is the error. *)
Definition io_Copy (name : string) (src : limitReadCloser Body) : M Z :=
  let '(data, rerr) := contents src in
  ([EvWrite name data],
   match Write env name data with
   | Some e => Err e
   | None => match rerr with
             | Some e => Err e
             | None => Ok (strings.len data)
             end
   end).

Definition call_unpackArchive (arcPath atype dist binName out : string)
  : M unit :=
  ([EvUnpack arcPath atype dist binName out],
   match unpackArchive env arcPath atype dist binName out with
   | Some e => Err e
   | None => Ok tt
   end).

Definition os_Chmod (name : string) (mode : Z) : M unit :=
  ([EvChmod name mode],
   match Chmod env name mode with Some e => Err e | None => Ok tt end).

(** The first part of [FetchBinary]: what becomes of [out]. *)
Definition outputPath (binName out : string) : M string :=
  st <- os_Stat out ;;
  let err := match st with Err e => Some e | Ok _ => None end in
  if negb (os_IsNotExist err) then
    match st with
    | Err e => fail e
    | Ok fi =>
        if negb (IsDir fi) then fail (PathError "FetchBinary" out ErrExist)
        else
          (* out exists and is a directory, so compose final name *)
          ret (path_Join env [out; binName])
    end
  else ret out.

(** The rest of [FetchBinary], from the creation of the temporary
    directory on; [out] is the final name of the binary. *)
Definition download (dist ver arcName binName out : string) : M string :=
  (* Create temp directory to store download *)
  tmpDir <- ioutil_TempDir "" arcName ;;
  defer (os_RemoveAll tmpDir)
    (let atype := if String.eqb (GOOS env) "windows" then "zip" else "tar.gz" in
     let arcName := makeArchiveName arcName ver atype in
     let arcIpfsPath := makeIpfsPath dist ver arcName in
     (* Create a file to write the archive data to *)
     let arcPath := path_Join env [tmpDir; arcName] in
     os_Create arcPath ;;;
     defer (File_Close arcPath)
       ((* Open connection to download archive from ipfs path *)
        rc <- fetch arcIpfsPath ;;
        defer (rc_Close rc)
          ((* Write download data *)
           io_Copy arcPath rc ;;;
           File_Close arcPath ;;;
           (* Unpack the archive and write binary to out *)
           call_unpackArchive arcPath atype dist binName out ;;;
           (* Set mode of binary to executable *)
           os_Chmod out 493 ;;;    (* 0755 *)
           ret out))).

Definition FetchBinary (dist ver arcName binName out : string) : M string :=
  (* If archive base name not specified, then it is same as dist. *)
  let arcName := if String.eqb arcName "" then dist else arcName in
  (* If binary base name is not specified, then it is same as archive
     base name. *)
  let binName := if String.eqb binName "" then arcName else binName in
  (* Name of binary that exists inside archive *)
  let binName := exeName env binName in
  out <- outputPath binName out ;;
  download dist ver arcName binName out.

End Fetch.

(* ================================================================= *)
(** ** [versions.go] *)

Definition distVersions : string := "versions".

Section Versions.

Variable srt : sort.Sorter.
Variable env : Env.

(** The scanning loop of [DistVersions]: a line that does not parse is
    skipped. *)
Definition scanVersions (prefix : string) (lines : list string)
  : list semver.Version :=
  flat_map (fun text =>
              match semver.NewVersion (strings.TrimLeft text prefix) with
              | Err _ => []            (* continue *)
              | Ok ver => [ver]
              end) lines.

Definition sortVersions (sortDesc : bool) (vers : list semver.Version)
  : list semver.Version :=
  if sortDesc then srt (sort.Reverse semver.Versions_Less) vers
  else srt semver.Versions_Less vers.

Definition DistVersions (dist : string) (sortDesc : bool) : M (list string) :=
  rc <- fetch env (path_Join env [ipfsDistPath env; dist; distVersions]) ;;
  defer (rc_Close rc)
    (let prefix := "v" in
     let '(data, rerr) := contents rc in
     let '(lines, err) := bufio.ScanAll data rerr in
     let vers := scanVersions prefix lines in
     match err with
     | Some err =>
         fail (errors_New (fmt.Sprintf "could not read versions: %s"
                             [fmt.S_ (Error_string err)]))
     | None =>
         let vers := sortVersions sortDesc vers in
         ret (map (fun ver => (prefix ++ semver.String_ ver)%string) vers)
     end).

(** The loop of [LatestDistVersion], from the last entry down. *)
Definition latestNonDev (vs : list string) : M string :=
  match find (fun ver => negb (strings.Contains ver "-dev")) (rev vs) with
  | Some ver => ret ver
  | None => fail (errors_New "could not find a non dev version")
  end.

Definition LatestDistVersion (dist : string) : M string :=
  vs <- DistVersions dist false ;;
  latestNonDev vs.

End Versions.

(* ================================================================= *)
(** ** Three-way comparisons

    Go's [Compare] functions return a negative number, zero or a positive
    number.  [Cmp c] says that [c] is such a comparison for a total
    preorder. *)

Record Cmp {A} (c : A -> A -> Z) : Prop := {
  cmp_antisym : forall a b, c b a = - c a b;
  cmp_trans : forall a b d, c a b <= 0 -> c b d <= 0 -> c a d <= 0
}.

Definition cmpZ (x y : Z) : Z :=
  if x >? y then 1 else if x <? y then -1 else 0.

(** First [c1], then [c2] where [c1] sees no difference. *)
Definition lexc {A} (c1 c2 : A -> A -> Z) (a b : A) : Z :=
  if negb (c1 a b =? 0) then c1 a b else c2 a b.

Definition pull {A B} (f : A -> B) (c : B -> B -> Z) (a b : A) : Z :=
  c (f a) (f b).

(** Lists, element by element; a proper prefix comes first. *)
Fixpoint listc {A} (c : A -> A -> Z) (l m : list A) : Z :=
  match l, m with
  | [], [] => 0
  | [], _ :: _ => -1
  | _ :: _, [] => 1
  | a :: l', b :: m' => if negb (c a b =? 0) then c a b else listc c l' m'
  end.

(* ================================================================= *)
(** ** The order of [semver.Compare], as a key comparison

    What [semver.Compare] computes, written as a lexicographic comparison
    of keys; [Compare_compareKey] below proves the two equal. *)

Definition strCmp (a b : string) : Z :=
  if semver.string_gt a b then 1 else if semver.string_lt a b then -1 else 0.

(** A pre-release identifier is numeric when [strconv.Atoi] accepts it. *)
Definition identClass (a : string) : Z :=
  if is_ok (strconv.Atoi a) then 0 else 1.

Definition identVal (a : string) : Z :=
  match strconv.Atoi a with Ok i => i | Err _ => 0 end.

Definition identCmp : string -> string -> Z :=
  lexc (pull identClass cmpZ) (lexc (pull identVal cmpZ) strCmp).

Definition preFlag (v : semver.Version) : Z :=
  if strings.len (semver.PreRelease v) =? 0 then 1 else 0.

Definition preKey (v : semver.Version) : list string :=
  semver.PreRelease_Slice (semver.PreRelease v).

Definition compareKey : semver.Version -> semver.Version -> Z :=
  lexc (pull semver.Major cmpZ)
    (lexc (pull semver.Minor cmpZ)
       (lexc (pull semver.Patch cmpZ)
          (lexc (pull preFlag cmpZ) (pull preKey (listc identCmp))))).

(* ================================================================= *)
(** ** Reading traces *)

Definition is_daemon_attempt (ev : Event) : bool :=
  match ev with EvApiEndpoint _ => true | _ => false end.

Definition is_daemon_call (ev : Event) : bool :=
  match ev with
  | EvApiEndpoint _ | EvIsUp _ | EvRequest _ _ _ => true
  | _ => false
  end.

Definition is_http_request (ev : Event) : bool :=
  match ev with EvHTTP _ _ _ => true | _ => false end.

(** The conditions under which [ipfsFetch] gives up, read off the world:
    no endpoint, daemon not up, the request fails, or its answer carries
    an error. *)
Definition daemon_unavailable (env : Env) (ipfsPath : string) : bool :=
  match ApiEndpoint env "" with
  | Err _ => true
  | Ok apiEp =>
      let sh := {| url := apiEp; timeout := shellTimeOut |} in
      negb (IsUp env sh) ||
      match Send env sh "cat" ipfsPath with
      | Err _ => true
      | Ok resp => match Error resp with Some _ => true | None => false end
      end
  end.

(* ================================================================= *)
(** ** Sample worlds, for running the definitions *)

Definition body_of (data : string) : Body :=
  {| pending := data; failure := None; closed := false |}.

Definition join_slash (elem : list string) : string := String.concat "/" elem.

(** A Linux host.  [daemon]: what the local daemon answers to [cat], if it
    is up; [http]: what the gateway answers; [stat]: what [os.Stat] finds
    at any path; [ldd]: how the libc probe ends. *)
Definition sample_env
    (daemon : option (result Response)) (http : result HTTPResponse)
    (stat : result FileInfo) (ldd : ProcResult) : Env :=
  {| GOOS := "linux";
     GOARCH := "amd64";
     path_Join := join_slash;
     ipfsDistPath := "/ipns/dist.ipfs.io";
     ApiEndpoint := fun _ => Ok "127.0.0.1:5001";
     exeName := fun name => name;
     unpackArchive := fun _ _ _ _ _ => None;
     IsUp := fun _ => match daemon with Some _ => true | None => false end;
     Send := fun _ _ _ =>
               match daemon with
               | Some r => r
               | None => Err (ExternalError "connection refused")
               end;
     NewRequestWithContext := fun _ _ => None;
     Do := fun _ _ _ => http;
     Stat := fun _ => stat;
     TempDir := fun _ pattern => Ok ("/tmp/" ++ pattern ++ "042")%string;
     Create := fun _ => None;
     Write := fun _ _ => None;
     Chmod := fun _ _ => None;
     Run := fun _ _ => ldd |}.

Definition http_ok (data : string) : result HTTPResponse :=
  Ok {| StatusCode := 200; Status := "200 OK"; RespBody := body_of data |}.

Definition http_not_found : result HTTPResponse :=
  Ok {| StatusCode := 404; Status := "404 Not Found";
        RespBody := body_of "no link named versions" |}.

Definition daemon_ok (data : string) : option (result Response) :=
  Some (Ok {| Output := body_of data; Error := None |}).

Definition not_exist : result FileInfo := Err (PathError "stat" "out" ErrNotExist).

Definition glibc : ProcResult :=
  Exited "ldd (Ubuntu GLIBC 2.23-0ubuntu5) 2.23" 0.

(** A world whose daemon serves [listing] and whose gateway is not asked. *)
Definition listing_env (listing : string) : Env :=
  sample_env (daemon_ok listing) http_not_found not_exist glibc.

(** A listing: one line per element, each ended by a newline. *)
Fixpoint unlines (ls : list string) : string :=
  match ls with
  | [] => EmptyString
  | l :: ls' => l ++ String "010" (unlines ls')
  end.

(** The number of bytes in a list of chunks. *)
Definition total_len (chunks : list string) : Z :=
  fold_right (fun chunk n => strings.len chunk + n) 0 chunks.

Definition sumZ (ns : list Z) : Z := fold_right Z.add 0 ns.

Definition concat_chunks (chunks : list string) : string :=
  fold_right String.append EmptyString chunks.

(* ================================================================= *)
(** ** The libc probe on a POSIX host

    [sh -c "ldd --version || true"]: if [sh] starts, it runs [ldd]; when
    [ldd] ends with a status other than zero, [sh] runs [true], and the
    status of [sh] is that of the last command run. *)
Record Probe : Type := {
  sh_fails : option error;   (* why [sh] could not be run, if so *)
  ldd_output : string;       (* stdout and stderr of [ldd --version] *)
  ldd_status : Z
}.

Definition true_status : Z := 0.

Definition sh_ldd_or_true (p : Probe) : ProcResult :=
  match sh_fails p with
  | Some e => NotStarted e
  | None =>
      Exited (ldd_output p)
             (if ldd_status p =? 0 then ldd_status p else true_status)
  end.

Definition probe_host (env : Env) (p : Probe) : Prop :=
  Run env "sh" ["-c"; "ldd --version || true"] = sh_ldd_or_true p.

(** A line the scanner can hand out. *)
Definition short_line (l : string) : Prop := strings.len l < bufio.MaxScanTokenSize.

(** An output of the probe in one line of 65540 bytes that ends in [musl]. *)
Definition long_musl_output : string :=
  (strings.Repeat "a" (2 ^ 16) ++ "musl")%string.

(** The events that put bytes at [p] or change the file there. *)
Definition touches (p : string) (ev : Event) : bool :=
  match ev with
  | EvCreate name | EvWrite name _ | EvChmod name _ => String.eqb name p
  | EvUnpack _ _ _ _ out => String.eqb out p
  | _ => false
  end.

Definition is_extraction (ev : Event) : bool :=
  match ev with
  | EvUnpack _ _ _ _ _ | EvChmod _ _ => true
  | _ => false
  end.


(** The type of archive for the host. *)
Definition archiveType (env : Env) : string :=
  if String.eqb (GOOS env) "windows" then "zip" else "tar.gz".

(** The events of the transports. *)
Definition is_transport (ev : Event) : bool :=
  match ev with
  | EvApiEndpoint _ | EvIsUp _ | EvRequest _ _ _ | EvLog _ | EvHTTP _ _ _
  | EvClose _ => true
  | _ => false
  end.


(** What [DistVersions] makes of a parsed version. *)
Definition render (ver : semver.Version) : string := "v" ++ semver.String_ ver.

(** What one line of the listing contributes to the result. *)
Definition line_result (line : string) : list string :=
  match semver.NewVersion (strings.TrimLeft (bufio.dropCR line) "v") with
  | Ok ver => [render ver]
  | Err _ => []
  end.

(** A line of a listing: it holds no newline and fits the scanner. *)
Definition listing_line (l : string) : Prop :=
  strings.mem "010" l = false /\ short_line l.




(** A daemon whose answer breaks off with a read error after [data]. *)
Definition daemon_broken (data : string) (e : error) : option (result Response) :=
  Some (Ok {| Output := {| pending := data; failure := Some e; closed := false |};
              Error := None |}).

(** The event, if it asks the daemon or the gateway for content, asks for
    the content at [p]. *)
Definition asks_for (p : string) (ev : Event) : Prop :=
  match ev with
  | EvRequest _ command arg => command = "cat" /\ arg = p
  | EvHTTP method u header =>
      method = "GET" /\ u = ("https://ipfs.io" ++ p)%string
      /\ header = [("User-Agent", "go-ipfs")]
  | _ => True
  end.

(** [ldd --version] on Alpine: the flag is not known, the text goes to
    stderr and the status is 1. *)
Definition alpine_ldd : Probe :=
  {| sh_fails := None;
     ldd_output := unlines ["musl libc (x86_64)"; "Version 1.1.24";
                            "Dynamic Program Loader";
                            "Usage: /lib/ld-musl-x86_64.so.1 [options] [--] pathname"];
     ldd_status := 1 |}.

(** Every byte of [s] passes the test [f]. *)
Fixpoint forall_chars (f : ascii -> bool) (s : string) : bool :=
  match s with
  | EmptyString => true
  | String c s' => f c && forall_chars f s'
  end.

Definition is_digit (c : ascii) : bool :=
  match strconv.digit c with Some _ => true | None => false end.

Definition is_ident_or_dot (c : ascii) : bool :=
  semver.isIdentChar c || Ascii.eqb c ".".

(** A version as [semver.NewVersion] makes them: numbers that fit a
    non-negative [int64], and a pre-release and metadata that pass
    [validateIdentifier]. *)
Definition well_formed (v : semver.Version) : Prop :=
  0 <= semver.Major v < 2 ^ 63
  /\ 0 <= semver.Minor v < 2 ^ 63
  /\ 0 <= semver.Patch v < 2 ^ 63
  /\ semver.validateIdentifier (semver.PreRelease v) = None
  /\ semver.validateIdentifier (semver.Metadata v) = None.

(* ================================================================= *)
(** ** Semantic-version precedence, as the standard words it

    The order that the documentation of the catalogue speaks of is the
    precedence of Semantic Versioning 2.0.0, section 11.  [SemVer] writes
    that section down from its words, not from the code, so that
    [semver.Compare] can be compared with it. *)

Module SemVer.

Definition digit (c : ascii) : bool :=
  let n := Z.of_N (N_of_ascii c) in (48 <=? n) && (n <=? 57).







End SemVer.





(* ================================================================= *)
(** * Properties *)

(** ** Three-way comparisons *)

Section Comparisons.

Lemma cmp_refl {A} (c : A -> A -> Z) : Cmp c -> forall a, c a a = 0.
Proof. intros H a. pose proof (cmp_antisym H a a). lia. Qed.

Lemma cmp_lt_le {A} (c : A -> A -> Z) :
  Cmp c -> forall a b d, c a b < 0 -> c b d <= 0 -> c a d < 0.
Proof.
  intros H a b d Hab Hbd.
  destruct (Z_lt_le_dec (c a d) 0) as [|Hge]; [assumption|exfalso].
  assert (Hda : c d a <= 0) by (rewrite (cmp_antisym H a d); lia).
  pose proof (cmp_trans H _ _ _ Hbd Hda) as Hba.
  rewrite (cmp_antisym H a b) in Hba. lia.
Qed.

Lemma cmp_le_lt {A} (c : A -> A -> Z) :
  Cmp c -> forall a b d, c a b <= 0 -> c b d < 0 -> c a d < 0.
Proof.
  intros H a b d Hab Hbd.
  destruct (Z_lt_le_dec (c a d) 0) as [|Hge]; [assumption|exfalso].
  assert (Hda : c d a <= 0) by (rewrite (cmp_antisym H a d); lia).
  pose proof (cmp_trans H _ _ _ Hda Hab) as Hdb.
  rewrite (cmp_antisym H b d) in Hdb. lia.
Qed.

Lemma cmp_eq_trans {A} (c : A -> A -> Z) :
  Cmp c -> forall a b d, c a b = 0 -> c b d = 0 -> c a d = 0.
Proof.
  intros H a b d Hab Hbd.
  assert (c a d <= 0) by (apply (cmp_trans H a b d); lia).
  assert (c d a <= 0).
  { apply (cmp_trans H d b a).
    - rewrite (cmp_antisym H b d); lia.
    - rewrite (cmp_antisym H a b); lia. }
  rewrite (cmp_antisym H a d) in *. lia.
Qed.

Lemma Cmp_cmpZ : Cmp cmpZ.
Proof.
  split; unfold cmpZ; intros;
    repeat match goal with
           | |- context [?x >? ?y] => destruct (Z.gtb_spec x y)
           | |- context [?x <? ?y] => destruct (Z.ltb_spec x y)
           | H : context [?x >? ?y] |- _ => destruct (Z.gtb_spec x y)
           | H : context [?x <? ?y] |- _ => destruct (Z.ltb_spec x y)
           end; lia.
Qed.

Lemma Cmp_pull {A B} (f : A -> B) (c : B -> B -> Z) : Cmp c -> Cmp (pull f c).
Proof.
  intros H; split; unfold pull; intros.
  - apply (cmp_antisym H).
  - eapply (cmp_trans H); eassumption.
Qed.

Lemma Cmp_lexc {A} (c1 c2 : A -> A -> Z) : Cmp c1 -> Cmp c2 -> Cmp (lexc c1 c2).
Proof.
  intros H1 H2; split; unfold lexc.
  - intros a b. rewrite (cmp_antisym H1 a b).
    destruct (Z.eqb_spec (c1 a b) 0), (Z.eqb_spec (- c1 a b) 0);
      simpl; try lia. apply (cmp_antisym H2).
  - intros a b d.
    destruct (Z.eqb_spec (c1 a b) 0) as [Eab|Nab],
             (Z.eqb_spec (c1 b d) 0) as [Ebd|Nbd]; simpl; intros Hab Hbd.
    + rewrite (cmp_eq_trans H1 _ _ _ Eab Ebd). simpl.
      eapply (cmp_trans H2); eassumption.
    + assert (c1 a d < 0) by (apply (cmp_le_lt H1 a b d); lia).
      destruct (Z.eqb_spec (c1 a d) 0); simpl; lia.
    + assert (c1 a d < 0) by (apply (cmp_lt_le H1 a b d); lia).
      destruct (Z.eqb_spec (c1 a d) 0); simpl; lia.
    + assert (c1 a d < 0) by (apply (cmp_lt_le H1 a b d); lia).
      destruct (Z.eqb_spec (c1 a d) 0); simpl; lia.
Qed.

Lemma Cmp_listc {A} (c : A -> A -> Z) : Cmp c -> Cmp (listc c).
Proof.
  intros H; split.
  - induction a as [|x a IH]; destruct b as [|y b]; simpl; try reflexivity.
    rewrite (cmp_antisym H y x).
    destruct (Z.eqb_spec (c y x) 0), (Z.eqb_spec (- c y x) 0);
      simpl; try lia. apply IH.
  - induction a as [|x a IH]; destruct b as [|y b]; destruct d as [|z d];
      simpl; try lia.
    destruct (Z.eqb_spec (c x y) 0) as [Exy|Nxy],
             (Z.eqb_spec (c y z) 0) as [Eyz|Nyz]; simpl; intros Hab Hbd.
    + rewrite (cmp_eq_trans H _ _ _ Exy Eyz). simpl. eapply IH; eassumption.
    + assert (c x z < 0) by (apply (cmp_le_lt H x y z); lia).
      destruct (Z.eqb_spec (c x z) 0); simpl; lia.
    + assert (c x z < 0) by (apply (cmp_lt_le H x y z); lia).
      destruct (Z.eqb_spec (c x z) 0); simpl; lia.
    + assert (c x z < 0) by (apply (cmp_lt_le H x y z); lia).
      destruct (Z.eqb_spec (c x z) 0); simpl; lia.
Qed.

End Comparisons.

(* ================================================================= *)
(** ** [semver.Compare] is a total preorder *)

Section SemverOrder.

Import semver.

Lemma Cmp_strCmp : Cmp strCmp.
Proof.
  split; unfold strCmp, string_gt, string_lt.
  - intros a b. rewrite (String.compare_antisym a b).
    destruct (String.compare b a); reflexivity.
  - intros a b d.
    destruct (String.compare a b) eqn:Eab; try (intros; lia);
      destruct (String.compare b d) eqn:Ebd; try (intros; lia); intros _ _.
    + apply OrderedTypeEx.String_as_OT.cmp_eq in Eab, Ebd. subst.
      pose proof (proj2 (OrderedTypeEx.String_as_OT.cmp_eq d d) eq_refl) as E.
      unfold OrderedTypeEx.String_as_OT.cmp in E. rewrite E. lia.
    + apply OrderedTypeEx.String_as_OT.cmp_eq in Eab. subst.
      rewrite Ebd. lia.
    + apply OrderedTypeEx.String_as_OT.cmp_eq in Ebd. subst.
      rewrite Eab. lia.
    + apply OrderedTypeEx.String_as_OT.cmp_lt in Eab, Ebd.
      pose proof (OrderedTypeEx.String_as_OT.lt_trans _ _ _ Eab Ebd) as Had.
      apply OrderedTypeEx.String_as_OT.cmp_lt in Had.
      unfold OrderedTypeEx.String_as_OT.cmp in Had. rewrite Had. lia.
Qed.

Lemma Cmp_identCmp : Cmp identCmp.
Proof.
  unfold identCmp.
  repeat (apply Cmp_lexc; [exact (Cmp_pull _ Cmp_cmpZ)|]).
  exact Cmp_strCmp.
Qed.

Lemma Cmp_compareKey : Cmp compareKey.
Proof.
  unfold compareKey.
  repeat (apply Cmp_lexc; [exact (Cmp_pull _ Cmp_cmpZ)|]).
  exact (Cmp_pull preKey (Cmp_listc Cmp_identCmp)).
Qed.

Ltac split_tests :=
  repeat match goal with
         | |- context [?x >? ?y] => destruct (Z.gtb_spec x y)
         | |- context [?x <? ?y] => destruct (Z.ltb_spec x y)
         | |- context [?x =? ?y] => destruct (Z.eqb_spec x y)
         end; simpl; try lia.

(** One step of [recursivePreReleaseCompare], on the identifiers [a]
    and [b]. *)
Lemma identCmp_chain a b :
  identCmp a b =
  let '(aI, aInt) := match strconv.Atoi a with
                     | Ok i => (i, true) | Err _ => (0, false) end in
  let '(bI, bInt) := match strconv.Atoi b with
                     | Ok i => (i, true) | Err _ => (0, false) end in
  if aInt && negb bInt then -1
  else if negb aInt && bInt then 1
  else if aInt && bInt && (aI >? bI) then 1
  else if aInt && bInt && (aI <? bI) then -1
  else if string_gt a b then 1
  else if string_lt a b then -1
  else 0.
Proof.
  unfold identCmp, lexc, pull, identClass, identVal, strCmp, cmpZ,
    string_gt, string_lt.
  destruct (strconv.Atoi a) as [aI|], (strconv.Atoi b) as [bI|]; simpl;
    try reflexivity;
    destruct (String.compare a b); simpl; split_tests; reflexivity.
Qed.

Lemma recursivePreReleaseCompare_listc versionA versionB :
  recursivePreReleaseCompare versionA versionB = listc identCmp versionA versionB.
Proof.
  revert versionB.
  induction versionA as [|a restA IH]; intros [|b restB];
    cbn [recursivePreReleaseCompare listc]; try reflexivity.
  rewrite IH, (identCmp_chain a b).
  destruct (strconv.Atoi a) as [aI|], (strconv.Atoi b) as [bI|];
    cbn [andb negb]; try reflexivity;
    unfold string_gt, string_lt;
    destruct (String.compare a b); split_tests; reflexivity.
Qed.

Lemma recursiveCompare_step a restA b restB :
  recursiveCompare (a :: restA) (b :: restB) =
  if negb (cmpZ a b =? 0) then Some (cmpZ a b) else recursiveCompare restA restB.
Proof. cbn [recursiveCompare]. unfold cmpZ. split_tests; reflexivity. Qed.

Lemma preReleaseCompare_key v versionB :
  preReleaseCompare v versionB =
  lexc (pull preFlag cmpZ) (pull preKey (listc identCmp)) v versionB.
Proof.
  unfold preReleaseCompare. rewrite recursivePreReleaseCompare_listc.
  unfold lexc, pull, preFlag, preKey, cmpZ.
  assert (0 <= strings.len (PreRelease v)) by (unfold strings.len; lia).
  assert (0 <= strings.len (PreRelease versionB)) by (unfold strings.len; lia).
  split_tests; reflexivity.
Qed.

Lemma Compare_compareKey v versionB : Compare v versionB = compareKey v versionB.
Proof.
  unfold Compare, compareKey, Slice.
  rewrite !recursiveCompare_step, preReleaseCompare_key.
  unfold lexc, pull. cbn [recursiveCompare].
  destruct (cmpZ (Major v) (Major versionB) =? 0) eqn:E1; cbn [negb];
    [|rewrite E1; reflexivity].
  destruct (cmpZ (Minor v) (Minor versionB) =? 0) eqn:E2; cbn [negb];
    [|rewrite E2; reflexivity].
  destruct (cmpZ (Patch v) (Patch versionB) =? 0) eqn:E3; cbn [negb];
    [|rewrite E3; reflexivity].
  reflexivity.
Qed.

Lemma Cmp_Compare : Cmp Compare.
Proof.
  split; intros; rewrite !Compare_compareKey in *.
  - apply (cmp_antisym Cmp_compareKey).
  - eapply (cmp_trans Cmp_compareKey); eassumption.
Qed.

Lemma StrictWeak_Versions_Less : sort.StrictWeak Versions_Less.
Proof.
  split; unfold Versions_Less, LessThan; intros x y.
  - intros H. apply Z.ltb_lt in H. apply Z.ltb_ge.
    rewrite (cmp_antisym Cmp_Compare x y). lia.
  - intros z Hxy Hyz. apply Z.ltb_ge in Hxy, Hyz. apply Z.ltb_ge.
    rewrite (cmp_antisym Cmp_Compare z x).
    assert (Compare z x <= 0); [|lia].
    apply (cmp_trans Cmp_Compare z y x).
    + rewrite (cmp_antisym Cmp_Compare y z). lia.
    + rewrite (cmp_antisym Cmp_Compare x y). lia.
Qed.

End SemverOrder.

(* ================================================================= *)
(** ** Sorting *)

Section Sorting.

Context {A : Type}.
Variable less : sort.Less A.

Lemma StrictWeak_Reverse : sort.StrictWeak less -> sort.StrictWeak (sort.Reverse less).
Proof.
  intros [Hasym Hneg]; split; unfold sort.Reverse.
  - intros x y. apply Hasym.
  - intros x y z Hxy Hyz. eapply Hneg; eassumption.
Qed.

Lemma less_irrefl : sort.StrictWeak less -> forall x, less x x = false.
Proof.
  intros H x. destruct (less x x) eqn:E; [|reflexivity].
  rewrite (sort.less_asym H _ _ E) in E. discriminate.
Qed.

(** The inner loop of [insertionSort] moves [x] and keeps all elements. *)
Lemma sink_perm x before : Permutation (x :: before) (sort.sink less x before).
Proof.
  induction before as [|y before IH]; simpl.
  - apply Permutation_refl.
  - destruct (less x y).
    + eapply Permutation_trans; [apply perm_swap|].
      apply perm_skip, IH.
    + apply Permutation_refl.
Qed.

Lemma sink_all_perm l acc :
  Permutation (l ++ acc) (fold_left (fun before x => sort.sink less x before) l acc).
Proof.
  revert acc. induction l as [|x l IH]; intros acc; simpl.
  - apply Permutation_refl.
  - eapply Permutation_trans; [|apply IH].
    eapply Permutation_trans; [apply Permutation_middle|].
    apply Permutation_app_head, sink_perm.
Qed.

Lemma insertionSort_perm l : Permutation l (sort.insertionSort less l).
Proof.
  unfold sort.insertionSort.
  eapply Permutation_trans; [|apply Permutation_rev].
  rewrite <- (app_nil_r l) at 1. apply sink_all_perm.
Qed.






End Sorting.


Section SortedUnique.

Context {A : Type}.
Variable lt : A -> A -> Prop.
Hypothesis lt_asym : forall x y, lt x y -> ~ lt y x.


End SortedUnique.

(* ================================================================= *)
(** ** The monad *)

Lemma bind_Ok {A B} (t : list Event) (a : A) (k : A -> M B) :
  bind (t, Ok a) k = (t ++ trace (k a), outcome (k a)).
Proof. unfold bind, trace, outcome. destruct (k a); reflexivity. Qed.

Lemma bind_Err {A B} (t : list Event) (e : error) (k : A -> M B) :
  bind (t, Err e) k = (t, Err e).
Proof. reflexivity. Qed.

Lemma defer_eq {A} (cleanup : M unit) (body : M A) :
  defer cleanup body = (trace body ++ trace cleanup, outcome body).
Proof. unfold defer, trace, outcome. destruct body; reflexivity. Qed.

Lemma trace_pair {A} (t : list Event) (r : result A) : trace (t, r) = t.
Proof. reflexivity. Qed.

Lemma outcome_pair {A} (t : list Event) (r : result A) : outcome (t, r) = r.
Proof. reflexivity. Qed.

Lemma M_eta {A} (m : M A) : m = (trace m, outcome m).
Proof. destruct m; reflexivity. Qed.

(* ================================================================= *)
(** ** Transport: [fetch], [ipfsFetch], [httpFetch] *)

Section Transport.

Variable env : Env.
Variable ipfsPath : string.

(** The daemon attempt, case by case. *)
Lemma ipfsFetch_cases :
  ipfsFetch env ipfsPath =
  match ApiEndpoint env "" with
  | Err e => ([EvApiEndpoint ""], Err e)
  | Ok apiEp =>
      let sh := {| url := apiEp; timeout := shellTimeOut |} in
      if negb (IsUp env sh)
      then ([EvApiEndpoint ""; EvIsUp sh], Err (errors_New "ipfs api shell not up"))
      else
        match Send env sh "cat" ipfsPath with
        | Err e => ([EvApiEndpoint ""; EvIsUp sh; EvRequest sh "cat" ipfsPath], Err e)
        | Ok resp =>
            ([EvApiEndpoint ""; EvIsUp sh; EvRequest sh "cat" ipfsPath],
             match Error resp with
             | Some e => Err e
             | None => Ok (newLimitReadCloser (Output resp) fetchSizeLimit)
             end)
        end
  end.
Proof.
  unfold ipfsFetch, call_ApiEndpoint, sh_IsUp, sh_Request_Send.
  destruct (ApiEndpoint env "") as [apiEp|e]; [|reflexivity].
  rewrite bind_Ok. cbn [url].
  destruct (IsUp env _); cbn [negb bind trace outcome fst snd app].
  - destruct (Send env _ "cat" ipfsPath) as [resp|e]; [|reflexivity].
    destruct (Error resp); reflexivity.
  - reflexivity.
Qed.

Lemma ipfsFetch_fails_iff :
  is_ok (outcome (ipfsFetch env ipfsPath)) = negb (daemon_unavailable env ipfsPath).
Proof.
  rewrite ipfsFetch_cases. unfold daemon_unavailable.
  destruct (ApiEndpoint env "") as [apiEp|e]; [|reflexivity].
  cbv zeta. destruct (IsUp env _); [|reflexivity]. cbn [negb orb].
  destruct (Send env _ "cat" ipfsPath) as [resp|e]; [|reflexivity].
  destruct (Error resp); reflexivity.
Qed.

Lemma ipfsFetch_one_attempt :
  List.length (filter is_daemon_attempt (trace (ipfsFetch env ipfsPath))) = 1%nat.
Proof.
  rewrite ipfsFetch_cases.
  destruct (ApiEndpoint env "") as [apiEp|e]; [|reflexivity].
  cbv zeta. destruct (IsUp env _); [|reflexivity]. cbn [negb].
  destruct (Send env _ "cat" ipfsPath) as [resp|e]; reflexivity.
Qed.

Lemma ipfsFetch_no_http :
  filter is_http_request (trace (ipfsFetch env ipfsPath)) = [].
Proof.
  rewrite ipfsFetch_cases.
  destruct (ApiEndpoint env "") as [apiEp|e]; [|reflexivity].
  cbv zeta. destruct (IsUp env _); [|reflexivity]. cbn [negb].
  destruct (Send env _ "cat" ipfsPath) as [resp|e]; reflexivity.
Qed.

(** The HTTP attempt, case by case: one [GET] at most, none when the
    request cannot even be built. *)
Lemma httpFetch_requests (u : string) :
  filter is_http_request (trace (httpFetch env u)) =
  match NewRequestWithContext env "GET" u with
  | Some _ => []
  | None => [EvHTTP "GET" u [("User-Agent", "go-ipfs")]]
  end.
Proof.
  unfold httpFetch.
  destruct (NewRequestWithContext env "GET" u); [reflexivity|].
  unfold try, http_Do. cbn [fst snd]. rewrite bind_Ok.
  destruct (Do env "GET" u _) as [resp|e]; [|reflexivity].
  destruct (StatusCode resp >=? 400); [|reflexivity].
  rewrite defer_eq. destruct (Body_contents (RespBody resp)) as [mes [err|]];
    reflexivity.
Qed.

Lemma httpFetch_no_daemon (u : string) :
  filter is_daemon_call (trace (httpFetch env u)) = [].
Proof.
  unfold httpFetch.
  destruct (NewRequestWithContext env "GET" u); [reflexivity|].
  unfold try, http_Do. cbn [fst snd]. rewrite bind_Ok.
  destruct (Do env "GET" u _) as [resp|e]; [|reflexivity].
  destruct (StatusCode resp >=? 400); [|reflexivity].
  rewrite defer_eq. destruct (Body_contents (RespBody resp)) as [mes [err|]];
    reflexivity.
Qed.

Lemma fetch_cases :
  fetch env ipfsPath =
  match outcome (ipfsFetch env ipfsPath) with
  | Ok rc =>
      (trace (ipfsFetch env ipfsPath)
         ++ [EvLog "using local ipfs daemon for transfer"], Ok rc)
  | Err _ =>
      (trace (ipfsFetch env ipfsPath)
         ++ trace (httpFetch env (gatewayURL ++ ipfsPath)),
       outcome (httpFetch env (gatewayURL ++ ipfsPath)))
  end.
Proof.
  unfold fetch, try. cbn [fst snd]. rewrite bind_Ok.
  fold (outcome (ipfsFetch env ipfsPath)). fold (trace (ipfsFetch env ipfsPath)).
  destruct (outcome (ipfsFetch env ipfsPath)); reflexivity.
Qed.

End Transport.

(** C1.  [fetch] tries the local daemon first, once.  If that attempt
    returns a stream, [fetch] logs the fact and returns the stream, and no
    HTTP request is made.  If and only if it fails (no endpoint, daemon not
    up, request error, or error field set in the answer), [fetch] calls
    [httpFetch] once, on the gateway URL followed by the path, and returns
    what that call returns, success or failure: the only HTTP request is
    the [GET] of that URL, and the daemon is not asked again. *)
Theorem fetch_daemon_first_then_one_http (env : Env) (ipfsPath : string) :
  let daemon := ipfsFetch env ipfsPath in
  let http := httpFetch env (gatewayURL ++ ipfsPath) in
  let all := fetch env ipfsPath in
  (exists rest, trace all = trace daemon ++ rest
                /\ filter is_daemon_call rest = [])
  /\ List.length (filter is_daemon_attempt (trace all)) = 1%nat
  /\ is_ok (outcome daemon) = negb (daemon_unavailable env ipfsPath)
  /\ match outcome daemon with
     | Ok rc =>
         all = (trace daemon ++ [EvLog "using local ipfs daemon for transfer"], Ok rc)
         /\ filter is_http_request (trace all) = []
     | Err _ =>
         all = (trace daemon ++ trace http, outcome http)
         /\ filter is_http_request (trace all) =
            match NewRequestWithContext env "GET" ("https://ipfs.io" ++ ipfsPath) with
            | Some _ => []
            | None => [EvHTTP "GET" ("https://ipfs.io" ++ ipfsPath)
                         [("User-Agent", "go-ipfs")]]
            end
     end.
Proof.
  cbv zeta. rewrite fetch_cases.
  pose proof (ipfsFetch_one_attempt env ipfsPath) as Hone.
  pose proof (ipfsFetch_no_http env ipfsPath) as Hnoh.
  pose proof (httpFetch_no_daemon env (gatewayURL ++ ipfsPath)) as Hnod.
  pose proof (httpFetch_requests env (gatewayURL ++ ipfsPath)) as Hreq.
  assert (Hsub : forall t, filter is_daemon_call t = [] ->
                           filter is_daemon_attempt t = []).
  { induction t as [|ev t IH]; [reflexivity|]. simpl.
    destruct ev; simpl; try discriminate; auto. }
  split; [|split; [|split]].
  - destruct (outcome (ipfsFetch env ipfsPath)); cbn [trace fst];
      eexists; split; try reflexivity; assumption.
  - destruct (outcome (ipfsFetch env ipfsPath)); cbn [trace fst];
      rewrite filter_app, length_app, Hone.
    + reflexivity.
    + rewrite (Hsub _ Hnod). reflexivity.
  - apply ipfsFetch_fails_iff.
  - destruct (outcome (ipfsFetch env ipfsPath)); cbn [trace fst];
      (split; [reflexivity|]); rewrite filter_app, Hnoh; [reflexivity|].
    exact Hreq.
Qed.

(** The three ways of [fetch], run on sample worlds. *)
Example fetch_daemon_up :
  fetch (listing_env "v1.0.0") "/ipns/dist.ipfs.io/go-ipfs/versions" =
  ([EvApiEndpoint "";
    EvIsUp {| url := "127.0.0.1:5001"; timeout := 300000000000 |};
    EvRequest {| url := "127.0.0.1:5001"; timeout := 300000000000 |} "cat"
      "/ipns/dist.ipfs.io/go-ipfs/versions";
    EvLog "using local ipfs daemon for transfer"],
   Ok (newLimitReadCloser (body_of "v1.0.0") 536870912)).
Proof. reflexivity. Qed.

Example fetch_daemon_down_http_ok :
  fetch (sample_env None (http_ok "v1.0.0") not_exist glibc) "/p" =
  ([EvApiEndpoint "";
    EvIsUp {| url := "127.0.0.1:5001"; timeout := 300000000000 |};
    EvHTTP "GET" "https://ipfs.io/p" [("User-Agent", "go-ipfs")]],
   Ok (newLimitReadCloser (body_of "v1.0.0") 536870912)).
Proof. reflexivity. Qed.

Example fetch_daemon_down_http_404 :
  fetch (sample_env None http_not_found not_exist glibc) "/p" =
  ([EvApiEndpoint "";
    EvIsUp {| url := "127.0.0.1:5001"; timeout := 300000000000 |};
    EvHTTP "GET" "https://ipfs.io/p" [("User-Agent", "go-ipfs")];
    EvClose (body_of "no link named versions")],
   Err (errors_New
          "GET https://ipfs.io/p error: 404 Not Found: no link named versions")).
Proof. reflexivity. Qed.

(* ================================================================= *)
(** ** The bounded stream *)

Section LimitedStream.

Context {S : Type} `{RC : io.ReadCloser S}.
Hypothesis contract : @io.ReaderContract S RC.

(** One read through the limit takes no more than what is left of it. *)
Lemma LimitedReader_Read_le (l : io.LimitedReader S) (lenp : Z) :
  0 <= io.N l -> 0 <= lenp ->
  let '((data, _), l') := io.LimitedReader_Read l lenp in
  strings.len data <= io.N l /\ io.N l' = io.N l - strings.len data.
Proof.
  intros HN Hp. unfold io.LimitedReader_Read.
  destruct (Z.leb_spec (io.N l) 0).
  - cbn. unfold strings.len. cbn. lia.
  - set (n := if lenp >? io.N l then io.N l else lenp).
    assert (Hn : 0 <= n <= io.N l)
      by (unfold n; destruct (Z.gtb_spec lenp (io.N l)); lia).
    pose proof (contract (io.R l) (proj1 Hn)) as Hlen.
    destruct (io.Read (io.R l) n) as [[data err] r']. cbn in *. lia.
Qed.

Lemma reads_bounded (l : limitReadCloser S) (lens : list Z) :
  0 <= io.N (Reader l) -> Forall (fun n => 0 <= n) lens ->
  total_len (fst (reads l lens)) <= io.N (Reader l)
  /\ io.N (Reader (snd (reads l lens)))
     = io.N (Reader l) - total_len (fst (reads l lens)).
Proof.
  intros HN HF. revert l HN.
  induction HF as [|n lens Hn HF IH]; intros l HN; cbn [reads].
  - cbn. lia.
  - cbn [io.Read limitReadCloser_ReadCloser]. unfold limitReadCloser_Read.
    pose proof (LimitedReader_Read_le (Reader l) HN Hn) as H1.
    destruct (io.LimitedReader_Read (Reader l) n) as [[data err] l'].
    destruct H1 as [Hle Heq].
    specialize (IH {| Reader := l' |}). cbn [Reader] in IH.
    destruct (reads {| Reader := l' |} lens) as [chunks l''].
    cbn [fst snd total_len fold_right] in *.
    assert (0 <= io.N l') by lia. specialize (IH H). lia.
Qed.

(** At the limit the stream reports end of data and leaves the source
    alone. *)
Lemma limit_reached_EOF (l : limitReadCloser S) (lenp : Z) :
  io.N (Reader l) <= 0 -> io.Read l lenp = ((EmptyString, Some EOF), l).
Proof.
  intros HN. cbn [io.Read limitReadCloser_ReadCloser].
  unfold limitReadCloser_Read, io.LimitedReader_Read.
  destruct (Z.leb_spec (io.N (Reader l)) 0); [|lia].
  destruct l; reflexivity.
Qed.

End LimitedStream.

(** What [contents] says of a stream over a [Body] is what reading it
    chunk by chunk gives. *)
Lemma take_len n s : 0 <= n -> strings.len (strings.take n s) = Z.min n (strings.len s).
Proof.
  revert n. induction s as [|c s IH]; intros n Hn; cbn [strings.take].
  - unfold strings.len. cbn. lia.
  - destruct (Z.leb_spec n 0).
    + unfold strings.len. cbn [String.length]. lia.
    + unfold strings.len in *. cbn [String.length].
      rewrite Nat2Z.inj_succ, IH by lia. lia.
Qed.

Lemma take_take_drop n m s :
  0 <= n -> 0 <= m ->
  (strings.take n s ++ strings.take m (strings.drop n s))%string = strings.take (n + m) s.
Proof.
  revert n. induction s as [|c s IH]; intros n Hn Hm.
  - reflexivity.
  - cbn [strings.take strings.drop].
    destruct (Z.leb_spec n 0).
    + assert (n = 0) by lia. subst. cbn [String.append]. reflexivity.
    + destruct (Z.leb_spec (n + m) 0); [lia|].
      cbn [String.append]. rewrite IH by lia. do 2 f_equal. lia.
Qed.

Lemma take_nonpos n s : n <= 0 -> strings.take n s = EmptyString.
Proof.
  intros Hn. destruct s; cbn [strings.take]; [reflexivity|].
  destruct (Z.leb_spec n 0); [reflexivity|lia].
Qed.

Lemma Body_contract : @io.ReaderContract Body Body_ReadCloser.
Proof.
  intros b n Hn. cbn [io.Read Body_ReadCloser]. unfold Body_Read.
  destruct (pending b) as [|c s] eqn:E; cbn [fst].
  - unfold strings.len. cbn. lia.
  - rewrite take_len by assumption. lia.
Qed.

Lemma take_all n s : strings.len s <= n -> strings.take n s = s.
Proof.
  revert n. induction s as [|c s IH]; intros n Hn; cbn [strings.take].
  - reflexivity.
  - unfold strings.len in *. cbn [String.length] in Hn.
    rewrite Nat2Z.inj_succ in Hn.
    destruct (Z.leb_spec n 0); [lia|]. rewrite IH by lia. reflexivity.
Qed.

Lemma sumZ_nonneg lens : Forall (fun k => 0 <= k) lens -> 0 <= sumZ lens.
Proof. induction 1; cbn [sumZ fold_right] in *; [lia|unfold sumZ in *; lia]. Qed.

Lemma reads_Body_concat (lens : list Z) : forall (b : Body) (n : Z),
  0 <= n -> Forall (fun k => 0 <= k) lens ->
  concat_chunks (fst (reads (newLimitReadCloser b n) lens))
  = strings.take (Z.min n (sumZ lens)) (pending b).
Proof.
  induction lens as [|k lens IH]; intros b n Hn HF.
  - cbn. rewrite take_nonpos; [reflexivity|]. cbn. lia.
  - inversion HF as [|? ? Hk HF']; subst.
    pose proof (sumZ_nonneg HF') as Hs.
    cbn [reads io.Read limitReadCloser_ReadCloser].
    unfold limitReadCloser_Read, io.LimitedReader_Read.
    cbn [newLimitReadCloser io.LimitReader Reader io.N io.R].
    cbn [sumZ fold_right]. fold (sumZ lens).
    destruct (Z.leb_spec n 0).
    + assert (n = 0) by lia. subst n.
      specialize (IH b 0 Hn HF'). unfold newLimitReadCloser, io.LimitReader in IH.
      destruct (reads _ lens) as [chunks l'] eqn:E in |- *.
      cbn [fst concat_chunks fold_right String.append].
      unfold newLimitReadCloser, io.LimitReader in E. rewrite E in IH.
      cbn [fst] in IH. unfold concat_chunks in IH. rewrite IH.
      rewrite !take_nonpos by lia. reflexivity.
    + set (k' := if k >? n then n else k).
      assert (Hk' : k' = Z.min k n)
        by (unfold k'; destruct (Z.gtb_spec k n); lia).
      cbn [io.Read Body_ReadCloser]. unfold Body_Read.
      destruct (pending b) as [|c p] eqn:Ep.
      * specialize (IH b (n - strings.len EmptyString)).
        unfold newLimitReadCloser, io.LimitReader in IH.
        destruct (reads _ lens) as [chunks l'] eqn:E in |- *.
        rewrite E in IH. cbn [fst] in *.
        cbn [concat_chunks fold_right String.append].
        unfold concat_chunks in IH. rewrite IH; try assumption.
        -- rewrite Ep. reflexivity.
        -- unfold strings.len. cbn. lia.
      * set (b' := {| pending := strings.drop k' (String c p);
                      failure := failure b; closed := closed b |}).
        specialize (IH b' (n - strings.len (strings.take k' (String c p)))).
        unfold newLimitReadCloser, io.LimitReader in IH.
        destruct (reads _ lens) as [chunks l'] eqn:E in |- *.
        rewrite E in IH. cbn [fst] in *.
        cbn [concat_chunks fold_right].
        unfold concat_chunks in IH.
        assert (Hlen : strings.len (strings.take k' (String c p))
                       = Z.min k' (strings.len (String c p)))
          by (apply take_len; lia).
        rewrite IH; try assumption; [|lia].
        cbn [pending b']. rewrite take_take_drop; [|lia|lia].
        rewrite Hlen.
        destruct (Z.le_gt_cases k' (strings.len (String c p))).
        -- f_equal. lia.
        -- rewrite !take_all; [reflexivity| |]; lia.
Qed.

Lemma reads_Body_contents (b : Body) (n : Z) (lens : list Z) :
  0 <= n -> Forall (fun k => 0 <= k) lens ->
  Z.min n (strings.len (pending b)) <= sumZ lens ->
  concat_chunks (fst (reads (newLimitReadCloser b n) lens))
  = fst (contents (newLimitReadCloser b n)).
Proof.
  intros Hn HF Hsum. rewrite reads_Body_concat by assumption.
  cbn [contents newLimitReadCloser io.LimitReader Reader io.N io.R fst].
  destruct (Z.le_gt_cases n (sumZ lens)).
  - f_equal. lia.
  - rewrite !take_all; [reflexivity| |]; lia.
Qed.

Lemma ipfsFetch_limit (env : Env) (p : string) :
  match outcome (ipfsFetch env p) with
  | Ok s => exists b, s = newLimitReadCloser b fetchSizeLimit
  | Err _ => True
  end.
Proof.
  rewrite ipfsFetch_cases.
  destruct (ApiEndpoint env "") as [apiEp|e]; [|exact I].
  cbv zeta. destruct (IsUp env _); [|exact I]. cbn [negb].
  destruct (Send env _ "cat" p) as [resp|e]; [|exact I].
  cbn [outcome snd]. destruct (Error resp); [exact I|]. eexists; reflexivity.
Qed.

Lemma httpFetch_limit (env : Env) (u : string) :
  match outcome (httpFetch env u) with
  | Ok s => exists b, s = newLimitReadCloser b fetchSizeLimit
  | Err _ => True
  end.
Proof.
  unfold httpFetch.
  destruct (NewRequestWithContext env "GET" u); [exact I|].
  unfold try, http_Do. cbn [fst snd]. rewrite bind_Ok.
  destruct (Do env "GET" u _) as [resp|e]; [|exact I].
  cbn [outcome snd].
  destruct (StatusCode resp >=? 400).
  - rewrite defer_eq. destruct (Body_contents (RespBody resp)) as [mes [err|]];
      exact I.
  - eexists; reflexivity.
Qed.

(** C2.  The stream that either transport returns is the source wrapped
    with a limit of 512 MiB.  Whatever the source (any reader that keeps
    the contract of [io.Reader]) and however it is read (any sequence of
    buffer lengths), the bytes obtained through the wrapper number at most
    536870912; what is left of the limit is 536870912 minus the bytes
    obtained, and once nothing is left every read reports end of data
    without touching the source.  [Close] on the wrapper, after any number
    of reads, is [Close] on the source in the state the reads left it in. *)
Theorem limitReadCloser_caps_and_closes
    (S : Type) (RC : io.ReadCloser S) (rc : S) (lens : list Z) :
  @io.ReaderContract S RC ->
  Forall (fun n => 0 <= n) lens ->
  let chunks := fst (reads (newLimitReadCloser rc fetchSizeLimit) lens) in
  let l := snd (reads (newLimitReadCloser rc fetchSizeLimit) lens) in
  total_len chunks <= 536870912
  /\ io.N (Reader l) = 536870912 - total_len chunks
  /\ (forall l' : limitReadCloser S, io.N (Reader l') <= 0 ->
      forall n, io.Read l' n = ((EmptyString, Some EOF), l'))
  /\ fst (io.Close l) = fst (io.Close (io.R (Reader l)))
  /\ io.R (Reader (snd (io.Close l))) = snd (io.Close (io.R (Reader l)))
  /\ (forall env p,
         match outcome (ipfsFetch env p) with
         | Ok s => exists b, s = newLimitReadCloser b 536870912
         | Err _ => True
         end
         /\ match outcome (httpFetch env p) with
            | Ok s => exists b, s = newLimitReadCloser b 536870912
            | Err _ => True
            end).
Proof.
  intros Hc HF. cbv zeta.
  assert (HN : 0 <= io.N (Reader (newLimitReadCloser rc fetchSizeLimit)))
    by (cbn; unfold fetchSizeLimit; lia).
  destruct (reads_bounded Hc (newLimitReadCloser rc fetchSizeLimit) HN HF)
    as [Hle Heq].
  change (io.N (Reader (newLimitReadCloser rc fetchSizeLimit)))
    with 536870912 in Hle, Heq.
  split; [exact Hle|]. split; [exact Heq|].
  split; [intros l' Hl' n; apply limit_reached_EOF; exact Hl'|].
  set (l := snd (reads (newLimitReadCloser rc fetchSizeLimit) lens)).
  cbn [io.Close limitReadCloser_ReadCloser]. unfold limitReadCloser_Close.
  split; [|split].
  - destruct (@io.Close S RC (io.R (Reader l))); reflexivity.
  - destruct (@io.Close S RC (io.R (Reader l))); reflexivity.
  - intros env p. split; [apply ipfsFetch_limit|apply httpFetch_limit].
Qed.

(** A source of ten bytes read through the 512 MiB wrapper in three reads,
    then closed. *)
Lemma limitReadCloser_caps_and_closes_witness :
  let lens := [4; 4; 100] in
  let rc := body_of "0123456789" in
  let chunks := fst (reads (newLimitReadCloser rc fetchSizeLimit) lens) in
  let l := snd (reads (newLimitReadCloser rc fetchSizeLimit) lens) in
  (@io.ReaderContract Body Body_ReadCloser /\ Forall (fun n => 0 <= n) lens)
  /\ chunks = ["0123"; "4567"; "89"]
  /\ total_len chunks <= 536870912
  /\ io.N (Reader l) = 536870912 - total_len chunks
  /\ closed (io.R (Reader (snd (io.Close l)))) = true.
Proof.
  cbv zeta.
  assert (HF : Forall (fun n => 0 <= n) [4; 4; 100])
    by (repeat constructor; lia).
  pose proof (@limitReadCloser_caps_and_closes Body Body_ReadCloser
                (body_of "0123456789") [4; 4; 100] Body_contract HF) as H.
  cbv zeta in H. destruct H as (Hle & HN & _ & _ & Hclose & _).
  split; [split; [exact Body_contract|exact HF]|].
  split; [reflexivity|].
  split; [exact Hle|]. split; [exact HN|].
  rewrite Hclose. reflexivity.
Defined.

(** With a limit of four bytes in place of 512 MiB, the same source is cut
    at four bytes; the reads after that report end of data, and [Close]
    still closes the source. *)
Example limit_truncates :
  let l := newLimitReadCloser (body_of "0123456789") 4 in
  fst (reads l [3; 3; 3]) = ["012"; "3"; ""]
  /\ fst (io.Read (snd (reads l [3; 3])) 3) = (EmptyString, Some EOF)
  /\ pending (io.R (Reader (snd (reads l [3; 3; 3])))) = "456789"
  /\ closed (io.R (Reader (snd (io.Close (snd (reads l [3; 3; 3])))))) = true
  /\ contents l = ("0123", None).
Proof. repeat split. Qed.

(* ================================================================= *)
(** ** Names of archives and of their paths *)

Lemma append_nil_r (s : string) : (s ++ "")%string = s.
Proof. induction s as [|c s IH]; cbn; [reflexivity|rewrite IH; reflexivity]. Qed.

Lemma append_assoc (s t u : string) : ((s ++ t) ++ u)%string = (s ++ (t ++ u))%string.
Proof. induction s as [|c s IH]; cbn; [reflexivity|rewrite IH; reflexivity]. Qed.

Lemma append_len (s t : string) :
  strings.len (s ++ t) = strings.len s + strings.len t.
Proof.
  unfold strings.len. induction s as [|c s IH]; cbn [String.append String.length].
  - lia.
  - rewrite !Nat2Z.inj_succ. lia.
Qed.

(** C9.  [makeArchiveName] returns [name], [ver], the host's [GOOS] and
    [GOARCH] and [atype] put together as [name_ver_GOOS-GOARCH.atype], and
    [makeIpfsPath] returns [root/dist/ver/arcName] for the distribution
    root [ipfsDistPath]; each result is fixed by the arguments and the
    host's constants, for instance
    [ipfs-10-to-11_v1.8.0_linux-amd64.tar.gz] on Linux/amd64. *)
Theorem archive_name_and_path_format
    (env : Env) (name ver atype dist arcName : string) :
  makeArchiveName env name ver atype
  = (name ++ "_" ++ ver ++ "_" ++ GOOS env ++ "-" ++ GOARCH env ++ "." ++ atype)%string
  /\ makeIpfsPath env dist ver arcName
     = (ipfsDistPath env ++ "/" ++ dist ++ "/" ++ ver ++ "/" ++ arcName)%string
  /\ makeArchiveName (listing_env "") "ipfs-10-to-11" "v1.8.0" "tar.gz"
     = "ipfs-10-to-11_v1.8.0_linux-amd64.tar.gz"
  /\ makeIpfsPath (listing_env "") "fs-repo-migrations" "v1.7.1"
       "fs-repo-migrations_v1.7.1_linux-amd64.tar.gz"
     = "/ipns/dist.ipfs.io/fs-repo-migrations/v1.7.1/fs-repo-migrations_v1.7.1_linux-amd64.tar.gz".
Proof.
  unfold makeArchiveName, makeIpfsPath.
  cbn [fmt.Sprintf fmt.show String.append].
  rewrite !append_nil_r. repeat split.
Qed.

(* ================================================================= *)
(** ** The scanner *)

Lemma tokens_short (ls : list string) :
  Forall short_line ls -> bufio.tokens ls = (map bufio.dropCR ls, None).
Proof.
  induction 1 as [|l ls Hl HF IH]; cbn [bufio.tokens map].
  - reflexivity.
  - unfold short_line in Hl.
    destruct (Z.leb_spec bufio.MaxScanTokenSize (strings.len l)); [lia|].
    rewrite IH. reflexivity.
Qed.

(** A line that does not fit stops the scan: the lines before it are
    handed out, and it and the lines after it are not. *)
Lemma tokens_long (pre : list string) (l : string) (post : list string) :
  Forall short_line pre -> ~ short_line l ->
  bufio.tokens (pre ++ l :: post) = (map bufio.dropCR pre, Some ErrTooLong).
Proof.
  intros HF Hl. induction HF as [|x pre Hx HF IH]; cbn [bufio.tokens map app].
  - unfold short_line in Hl.
    destruct (Z.leb_spec bufio.MaxScanTokenSize (strings.len l)); [reflexivity|lia].
  - unfold short_line in Hx.
    destruct (Z.leb_spec bufio.MaxScanTokenSize (strings.len x)); [lia|].
    rewrite IH. reflexivity.
Qed.

Lemma prefix_dropCR (p : string) : forall t : string,
  strings.mem "013" p = false ->
  String.prefix p (bufio.dropCR t) = String.prefix p t.
Proof.
  induction p as [|a p IH]; intros t Hp.
  - destruct t as [|c [|d r]]; cbn; try reflexivity.
    destruct (Ascii.eqb c "013"); reflexivity.
  - cbn [strings.mem] in Hp. apply orb_false_iff in Hp. destruct Hp as [Ha Hp].
    destruct t as [|c [|d r]].
    + reflexivity.
    + cbn [bufio.dropCR]. destruct (Ascii.eqb_spec c "013") as [->|Hc].
      * cbn [String.prefix]. destruct (ascii_dec a "013") as [->|]; [|reflexivity].
        rewrite Ascii.eqb_refl in Ha. discriminate.
      * reflexivity.
    + change (bufio.dropCR (String c (String d r)))
        with (String c (bufio.dropCR (String d r))).
      cbn [String.prefix]. destruct (ascii_dec a c); [|reflexivity].
      apply IH. assumption.
Qed.

Lemma Contains_dropCR (sub : string) : forall t : string,
  strings.mem "013" sub = false -> sub <> EmptyString ->
  strings.Contains (bufio.dropCR t) sub = strings.Contains t sub.
Proof.
  intros t Hs Hne. induction t as [|c t IH].
  - reflexivity.
  - destruct t as [|d r].
    + cbn [bufio.dropCR]. destruct (Ascii.eqb_spec c "013") as [->|Hc]; [|reflexivity].
      destruct sub as [|a sub]; [congruence|].
      cbn [strings.mem] in Hs. apply orb_false_iff in Hs. destruct Hs as [Ha _].
      cbn. destruct (ascii_dec a "013") as [->|]; [|reflexivity].
      rewrite Ascii.eqb_refl in Ha. discriminate.
    + change (bufio.dropCR (String c (String d r)))
        with (String c (bufio.dropCR (String d r))).
      cbn [strings.Contains]. unfold strings.HasPrefix.
      rewrite <- (@prefix_dropCR sub (String c (String d r)) Hs).
      change (bufio.dropCR (String c (String d r)))
        with (String c (bufio.dropCR (String d r))).
      f_equal. exact IH.
Qed.

Lemma existsb_map_dropCR (sub : string) (ls : list string) :
  strings.mem "013" sub = false -> sub <> EmptyString ->
  existsb (fun text => strings.Contains text sub) (map bufio.dropCR ls)
  = existsb (fun line => strings.Contains line sub) ls.
Proof.
  intros Hs Hne. induction ls as [|l ls IH]; cbn [map existsb]; [reflexivity|].
  rewrite IH, Contains_dropCR by assumption. reflexivity.
Qed.

(* ================================================================= *)
(** ** [osWithVariant] *)

Lemma osWithVariant_cases (env : Env) :
  osWithVariant env =
  if negb (String.eqb (GOOS env) "linux") then ([], Ok (GOOS env))
  else
    ([EvCommand "sh" ["-c"; "ldd --version || true"]],
     match Run env "sh" ["-c"; "ldd --version || true"] with
     | NotStarted e => Err e
     | Exited out status =>
         if status =? 0 then
           Ok (if existsb (fun text => strings.Contains text "musl")
                    (fst (bufio.ScanAll out None))
               then "linux-musl" else "linux")
         else Err (ExternalError (fmt.Sprintf "exit status %d" [fmt.D_ status]))
     end).
Proof.
  unfold osWithVariant, CombinedOutput.
  destruct (negb (String.eqb (GOOS env) "linux")); [reflexivity|].
  rewrite bind_Ok.
  destruct (Run env "sh" _) as [e|out status]; [reflexivity|].
  destruct (status =? 0); [|reflexivity].
  destruct (bufio.ScanAll out None) as [lines err]. cbn [fst].
  destruct (existsb _ lines); reflexivity.
Qed.

(** On a host whose shell follows POSIX, and for an output of the probe
    whose lines all fit the scanner's buffer, [osWithVariant] on Linux
    fails exactly when [sh] cannot be run, whatever the status of [ldd],
    and otherwise answers [linux-musl] exactly when a line of the output
    contains [musl]. *)
Lemma osWithVariant_short_lines (env : Env) (p : Probe) :
  GOOS env = "linux" -> probe_host env p ->
  Forall short_line (bufio.lines (ldd_output p)) ->
  osWithVariant env =
  ([EvCommand "sh" ["-c"; "ldd --version || true"]],
   match sh_fails p with
   | Some e => Err e
   | None =>
       Ok (if existsb (fun line => strings.Contains line "musl")
                (bufio.lines (ldd_output p))
           then "linux-musl" else "linux")
   end).
Proof.
  intros Hos Hhost Hshort. rewrite osWithVariant_cases, Hos. cbn [String.eqb negb].
  change (String.eqb "linux" "linux") with true. cbn [negb].
  rewrite Hhost. unfold sh_ldd_or_true.
  destruct (sh_fails p); [reflexivity|].
  replace (if ldd_status p =? 0 then ldd_status p else true_status) with 0
    by (destruct (Z.eqb_spec (ldd_status p) 0); [congruence|reflexivity]).
  cbn [Z.eqb]. unfold bufio.ScanAll. rewrite (tokens_short Hshort). cbn [fst].
  rewrite existsb_map_dropCR; [reflexivity|reflexivity|discriminate].
Qed.

(** When a line of the output does not fit the scanner's buffer, only the
    lines before it are looked at. *)
Lemma osWithVariant_long_line (env : Env) (out : string)
    (pre : list string) (l : string) (post : list string) :
  GOOS env = "linux" ->
  Run env "sh" ["-c"; "ldd --version || true"] = Exited out 0 ->
  bufio.lines out = pre ++ l :: post ->
  Forall short_line pre -> ~ short_line l ->
  osWithVariant env =
  ([EvCommand "sh" ["-c"; "ldd --version || true"]],
   Ok (if existsb (fun line => strings.Contains line "musl") pre
       then "linux-musl" else "linux")).
Proof.
  intros Hos Hrun Hlines Hpre Hl. rewrite osWithVariant_cases, Hos, Hrun.
  change (String.eqb "linux" "linux") with true. cbn [negb Z.eqb].
  unfold bufio.ScanAll. rewrite Hlines, (tokens_long post Hpre Hl). cbn [fst].
  rewrite existsb_map_dropCR; [reflexivity|reflexivity|discriminate].
Qed.

Lemma lines_one_line (s : string) :
  s <> EmptyString -> strings.mem "010" s = false -> bufio.lines s = [s].
Proof.
  induction s as [|c s IH]; intros Hne Hm; [congruence|].
  cbn [strings.mem] in Hm. apply orb_false_iff in Hm. destruct Hm as [Hc Hm].
  cbn [bufio.lines]. rewrite Ascii.eqb_sym, Hc.
  destruct s as [|d s]; [reflexivity|].
  rewrite IH; [reflexivity|discriminate|assumption].
Qed.

Lemma mem_append (c : ascii) (s t : string) :
  strings.mem c (s ++ t) = strings.mem c s || strings.mem c t.
Proof.
  induction s as [|d s IH]; cbn [String.append strings.mem]; [reflexivity|].
  rewrite IH, orb_assoc. reflexivity.
Qed.

Lemma mem_Repeat (c : ascii) (s : string) (n : nat) :
  strings.mem c s = false -> strings.mem c (strings.Repeat s n) = false.
Proof.
  intros Hs. induction n as [|n IH]; cbn [strings.Repeat]; [reflexivity|].
  rewrite mem_append, Hs, IH. reflexivity.
Qed.

Lemma len_Repeat (s : string) (n : nat) :
  strings.len (strings.Repeat s n) = Z.of_nat n * strings.len s.
Proof.
  induction n as [|n IH]; cbn [strings.Repeat]; [reflexivity|].
  rewrite append_len, IH. lia.
Qed.

Lemma Contains_append_r (s t sub : string) :
  strings.Contains t sub = true -> strings.Contains (s ++ t) sub = true.
Proof.
  intros Ht. induction s as [|c s IH]; cbn [String.append]; [assumption|].
  cbn [strings.Contains]. rewrite IH. apply orb_true_r.
Qed.

(** C8, at an output of the probe whose only line is longer than the
    scanner's buffer.  [sh] ran and ended with status zero, the line
    contains [musl], and yet no line is handed out by the scanner: the
    loop body never runs, the scanner's error is not looked at, and the
    answer is [linux]. *)
Theorem osWithVariant_misses_musl_in_long_line :
  let env := sample_env None http_not_found not_exist (Exited long_musl_output 0) in
  GOOS env = "linux"
  /\ existsb (fun line => strings.Contains line "musl") (bufio.lines long_musl_output)
     = true
  /\ fst (bufio.tokens (bufio.lines long_musl_output)) = []
  /\ osWithVariant env
     = ([EvCommand "sh" ["-c"; "ldd --version || true"]], Ok "linux").
Proof.
  cbv zeta.
  assert (Hlines : bufio.lines long_musl_output = [long_musl_output]).
  { apply lines_one_line.
    - unfold long_musl_output. change (2 ^ 16)%nat with (S (Nat.pred (2 ^ 16))).
      cbn [strings.Repeat String.append]. discriminate.
    - unfold long_musl_output. rewrite mem_append, mem_Repeat; reflexivity. }
  assert (Hlong : ~ short_line long_musl_output).
  { unfold short_line, long_musl_output.
    rewrite append_len, len_Repeat, Nat2Z.inj_pow.
    change (strings.len "a") with 1. change (strings.len "musl") with 4.
    unfold bufio.MaxScanTokenSize. cbn. lia. }
  split; [reflexivity|]. split; [|split].
  - rewrite Hlines. cbn [existsb]. unfold long_musl_output.
    rewrite Contains_append_r; reflexivity.
  - rewrite Hlines.
    change [long_musl_output] with ([] ++ long_musl_output :: @nil string).
    rewrite (@tokens_long [] long_musl_output []);
      [reflexivity|constructor|assumption].
  - apply (@osWithVariant_long_line _ long_musl_output [] long_musl_output []);
      [reflexivity|reflexivity|assumption|constructor|assumption].
Qed.

(* ================================================================= *)
(** ** [FetchBinary] *)

Section Install.

Variable env : Env.
Variables dist ver arcName binName out : string.

Lemma outputPath_cases :
  outputPath env binName out =
  ([EvStat out],
   match Stat env out with
   | Ok fi =>
       if IsDir fi then Ok (path_Join env [out; binName])
       else Err (PathError "FetchBinary" out ErrExist)
   | Err e => if os_IsNotExist (Some e) then Ok out else Err e
   end).
Proof.
  unfold outputPath, os_Stat. rewrite bind_Ok.
  destruct (Stat env out) as [fi|e].
  - cbn [os_IsNotExist negb]. destruct (IsDir fi); reflexivity.
  - destruct (os_IsNotExist (Some e)); reflexivity.
Qed.

(** Every way through the download, with its trace. *)
Lemma download_cases :
  download env dist ver arcName binName out =
  match TempDir env "" arcName with
  | Err e => ([EvTempDir "" arcName], Err e)
  | Ok tmpDir =>
      let atype := archiveType env in
      let arc := makeArchiveName env arcName ver atype in
      let arcPath := path_Join env [tmpDir; arc] in
      let remove := [EvRemoveAll tmpDir] in
      match Create env arcPath with
      | Some e => (EvTempDir "" arcName :: EvCreate arcPath :: remove, Err e)
      | None =>
          let f := fetch env (makeIpfsPath env dist ver arc) in
          match outcome f with
          | Err e =>
              (EvTempDir "" arcName :: EvCreate arcPath :: trace f
                 ++ EvFileClose arcPath :: remove, Err e)
          | Ok rc =>
              let release :=
                EvClose (io.R (Reader rc)) :: EvFileClose arcPath :: remove in
              let copied :=
                EvTempDir "" arcName :: EvCreate arcPath :: trace f
                  ++ [EvWrite arcPath (fst (contents rc))] in
              match outcome (io_Copy env arcPath rc) with
              | Err e => (copied ++ release, Err e)
              | Ok _ =>
                  let unpacked :=
                    copied ++ [EvFileClose arcPath;
                               EvUnpack arcPath atype dist binName out] in
                  match unpackArchive env arcPath atype dist binName out with
                  | Some e => (unpacked ++ release, Err e)
                  | None =>
                      (unpacked ++ EvChmod out 493 :: release,
                       match Chmod env out 493 with
                       | Some e => Err e
                       | None => Ok out
                       end)
                  end
              end
          end
      end
  end.
Proof.
  unfold download, ioutil_TempDir.
  destruct (TempDir env "" arcName) as [tmpDir|e]; [|reflexivity].
  rewrite bind_Ok, defer_eq. fold (archiveType env). cbv zeta.
  set (arc := makeArchiveName env arcName ver (archiveType env)).
  set (arcPath := path_Join env [tmpDir; arc]).
  unfold os_Create.
  destruct (Create env arcPath) as [e|]; [reflexivity|].
  rewrite bind_Ok, defer_eq.
  rewrite (M_eta (fetch env (makeIpfsPath env dist ver arc))).
  cbn [trace outcome fst snd].
  destruct (outcome (fetch env (makeIpfsPath env dist ver arc))) as [rc|e].
  2:{ cbn [bind fst snd app File_Close os_RemoveAll emit].
      rewrite <- !app_assoc. reflexivity. }
  rewrite bind_Ok, defer_eq.
  unfold io_Copy at 1 2. unfold io_Copy.
  destruct (contents rc) as [data rerr]. cbn [fst snd outcome].
  assert (Hcopy :
    forall r : result Z,
      bind ([EvWrite arcPath data], r)
        (fun _ => File_Close arcPath ;;;
                  call_unpackArchive env arcPath (archiveType env) dist binName out ;;;
                  os_Chmod env out 493 ;;; ret out)
      = match r with
        | Err e => ([EvWrite arcPath data], Err e)
        | Ok _ =>
            match unpackArchive env arcPath (archiveType env) dist binName out with
            | Some e =>
                ([EvWrite arcPath data; EvFileClose arcPath;
                  EvUnpack arcPath (archiveType env) dist binName out], Err e)
            | None =>
                ([EvWrite arcPath data; EvFileClose arcPath;
                  EvUnpack arcPath (archiveType env) dist binName out;
                  EvChmod out 493],
                 match Chmod env out 493 with
                 | Some e => Err e
                 | None => Ok out
                 end)
            end
        end).
  { intros [z|e]; [|reflexivity].
    unfold call_unpackArchive, os_Chmod, File_Close, emit, ret.
    cbn [bind app].
    destruct (unpackArchive env arcPath (archiveType env) dist binName out);
      [reflexivity|].
    destruct (Chmod env out 493); reflexivity. }
  rewrite Hcopy.
  destruct (match Write env arcPath data with
            | Some e => Err e
            | None => match rerr with
                      | Some e => Err e
                      | None => Ok (strings.len data)
                      end
            end) as [z|e].
  - destruct (unpackArchive env arcPath (archiveType env) dist binName out).
    + cbn [trace outcome fst snd rc_Close Body_Close_call File_Close
             os_RemoveAll emit app].
      rewrite <- !app_assoc. reflexivity.
    + cbn [trace outcome fst snd rc_Close Body_Close_call File_Close
             os_RemoveAll emit app].
      rewrite <- !app_assoc. reflexivity.
  - cbn [trace outcome fst snd rc_Close Body_Close_call File_Close
           os_RemoveAll emit app].
    rewrite <- !app_assoc. reflexivity.
Qed.

End Install.

Lemma fetch_transport_only (env : Env) (p : string) :
  forallb is_transport (trace (fetch env p)) = true.
Proof.
  assert (Hd : forallb is_transport (trace (ipfsFetch env p)) = true).
  { rewrite ipfsFetch_cases.
    destruct (ApiEndpoint env "") as [apiEp|e]; [|reflexivity].
    cbv zeta. destruct (IsUp env _); [|reflexivity]. cbn [negb].
    destruct (Send env _ "cat" p) as [resp|e]; reflexivity. }
  assert (Hh : forall u, forallb is_transport (trace (httpFetch env u)) = true).
  { intros u. unfold httpFetch.
    destruct (NewRequestWithContext env "GET" u); [reflexivity|].
    unfold try, http_Do. cbn [fst snd]. rewrite bind_Ok.
    destruct (Do env "GET" u _) as [resp|e]; [|reflexivity].
    destruct (StatusCode resp >=? 400); [|reflexivity].
    rewrite defer_eq. destruct (Body_contents (RespBody resp)) as [mes [err|]];
      reflexivity. }
  rewrite fetch_cases.
  destruct (outcome (ipfsFetch env p)); cbn [trace fst];
    rewrite forallb_app, Hd; [reflexivity|apply Hh].
Qed.

Lemma transport_filter (f : Event -> bool) (t : list Event) :
  (forall ev, is_transport ev = true -> f ev = false) ->
  forallb is_transport t = true -> filter f t = [].
Proof.
  intros Hf. induction t as [|ev t IH]; cbn [forallb filter]; [reflexivity|].
  intros H. apply andb_true_iff in H. destruct H as [Hev Ht].
  rewrite (Hf _ Hev). apply IH. assumption.
Qed.



Lemma fetch_no_extraction (env : Env) (p : string) :
  filter is_extraction (trace (fetch env p)) = [].
Proof.
  apply transport_filter; [|apply fetch_transport_only].
  intros ev H; destruct ev; try discriminate H; reflexivity.
Qed.

Section InstallProperties.

Variable env : Env.
Variables dist ver arcName binName out : string.

Ltac name_parts :=
  cbv zeta;
  set (atype := archiveType env);
  set (arc := makeArchiveName env arcName ver atype);
  set (ipfsPath := makeIpfsPath env dist ver arc).

(** On success [download] returns the name it was given for the binary. *)
Lemma download_returns_out (p : string) :
  outcome (download env dist ver arcName binName out) = Ok p -> p = out.
Proof.
  rewrite download_cases. name_parts.
  destruct (TempDir env "" arcName) as [tmpDir|]; [|discriminate].
  destruct (Create env _); [discriminate|].
  destruct (outcome (fetch env ipfsPath)) as [rc|]; [|discriminate].
  destruct (outcome (io_Copy env _ rc)); [|discriminate].
  destruct (unpackArchive env _ atype dist binName out); [discriminate|].
  rewrite outcome_pair. destruct (Chmod env out 493); congruence.
Qed.

(** The extraction, when it is reached, is aimed at [out]. *)
Lemma download_extracts_to_out :
  forallb (touches out)
    (filter is_extraction (trace (download env dist ver arcName binName out)))
  = true.
Proof.
  rewrite download_cases. name_parts.
  pose proof (fetch_no_extraction env ipfsPath) as Hx.
  destruct (TempDir env "" arcName) as [tmpDir|]; [|reflexivity].
  destruct (Create env _); [reflexivity|].
  destruct (outcome (fetch env ipfsPath)) as [rc|].
  2:{ rewrite trace_pair; cbn [filter is_extraction]. rewrite filter_app, Hx. reflexivity. }
  destruct (outcome (io_Copy env _ rc));
    [destruct (unpackArchive env _ atype dist binName out)|];
    rewrite trace_pair;
    repeat (rewrite ?filter_app; cbn [filter is_extraction app]);
    rewrite Hx; cbn [app forallb touches];
    rewrite ?String.eqb_refl; reflexivity.
Qed.

Section TempDirCreated.

Variable tmpDir : string.
Hypothesis created : TempDir env "" arcName = Ok tmpDir.




End TempDirCreated.

End InstallProperties.


Lemma FetchBinary_eq (env : Env) (dist ver arcName binName out : string) :
  let arc := if String.eqb arcName "" then dist else arcName in
  let bin := exeName env (if String.eqb binName "" then arc else binName) in
  FetchBinary env dist ver arcName binName out =
  match outcome (outputPath env bin out) with
  | Ok final =>
      (EvStat out :: trace (download env dist ver arc bin final),
       outcome (download env dist ver arc bin final))
  | Err e => ([EvStat out], Err e)
  end.
Proof.
  cbv zeta. unfold FetchBinary. rewrite outputPath_cases, outcome_pair.
  set (arc := if String.eqb arcName "" then dist else arcName).
  set (bin := exeName env (if String.eqb binName "" then arc else binName)).
  destruct (match Stat env out with
            | Ok fi => if IsDir fi then Ok (path_Join env [out; bin])
                       else Err (PathError "FetchBinary" out ErrExist)
            | Err e => if os_IsNotExist (Some e) then Ok out else Err e
            end) as [final|e]; [|reflexivity].
  rewrite bind_Ok. reflexivity.
Qed.

(** C6.  [FetchBinary] first looks at [out], and at nothing else.  When
    [out] is there and is not a directory, the call ends at once with a
    [PathError] around [os.ErrExist]: its whole trace is the [Stat], so no
    temporary directory is made, nothing is fetched and nothing is
    unpacked.  When [out] is a directory, the call goes on with
    [path.Join(out, binName)] as the name of the binary: that name is the
    aim of the extraction and the value returned on success.  When [Stat]
    fails for another reason than the absence of [out], the call ends at
    once with that error.  When [out] is absent, the call goes on with
    [out] itself. *)
Theorem FetchBinary_output_disposition
    (env : Env) (dist ver arcName binName out : string) :
  let arc := if String.eqb arcName "" then dist else arcName in
  let bin := exeName env (if String.eqb binName "" then arc else binName) in
  let call := FetchBinary env dist ver arcName binName out in
  match Stat env out with
  | Ok fi =>
      if IsDir fi then
        let final := path_Join env [out; bin] in
        call = (EvStat out :: trace (download env dist ver arc bin final),
                outcome (download env dist ver arc bin final))
        /\ (forall p, outcome call = Ok p -> p = final)
        /\ forallb (touches final) (filter is_extraction (trace call)) = true
      else
        call = ([EvStat out], Err (PathError "FetchBinary" out ErrExist))
  | Err e =>
      if os_IsNotExist (Some e) then
        call = (EvStat out :: trace (download env dist ver arc bin out),
                outcome (download env dist ver arc bin out))
      else call = ([EvStat out], Err e)
  end.
Proof.
  cbv zeta. rewrite FetchBinary_eq. cbv zeta.
  rewrite outputPath_cases, outcome_pair.
  set (arc := if String.eqb arcName "" then dist else arcName).
  set (bin := exeName env (if String.eqb binName "" then arc else binName)).
  destruct (Stat env out) as [fi|e].
  - destruct (IsDir fi); [|reflexivity].
    split; [reflexivity|]. split.
    + rewrite outcome_pair. apply download_returns_out.
    + rewrite trace_pair. cbn [filter is_extraction].
      apply download_extracts_to_out.
  - destruct (os_IsNotExist (Some e)); reflexivity.
Qed.

(** [out] is a file that exists: nothing but the [Stat] happens. *)
Example FetchBinary_existing_file :
  FetchBinary
    (sample_env (daemon_ok "archive bytes") http_not_found
       (Ok {| IsDir := false |}) glibc)
    "go-ipfs" "v0.7.0" "go-ipfs" "ipfs" "/usr/local/bin/ipfs"
  = ([EvStat "/usr/local/bin/ipfs"],
     Err (PathError "FetchBinary" "/usr/local/bin/ipfs" ErrExist)).
Proof. reflexivity. Qed.

(** [out] is a directory: the binary goes to [out/ipfs]. *)
Example FetchBinary_into_directory :
  FetchBinary
    (sample_env (daemon_ok "archive bytes") http_not_found
       (Ok {| IsDir := true |}) glibc)
    "go-ipfs" "v0.7.0" "go-ipfs" "ipfs" "/usr/local/bin"
  = ([EvStat "/usr/local/bin";
      EvTempDir "" "go-ipfs";
      EvCreate "/tmp/go-ipfs042/go-ipfs_v0.7.0_linux-amd64.tar.gz";
      EvApiEndpoint "";
      EvIsUp {| url := "127.0.0.1:5001"; timeout := 300000000000 |};
      EvRequest {| url := "127.0.0.1:5001"; timeout := 300000000000 |} "cat"
        "/ipns/dist.ipfs.io/go-ipfs/v0.7.0/go-ipfs_v0.7.0_linux-amd64.tar.gz";
      EvLog "using local ipfs daemon for transfer";
      EvWrite "/tmp/go-ipfs042/go-ipfs_v0.7.0_linux-amd64.tar.gz" "archive bytes";
      EvFileClose "/tmp/go-ipfs042/go-ipfs_v0.7.0_linux-amd64.tar.gz";
      EvUnpack "/tmp/go-ipfs042/go-ipfs_v0.7.0_linux-amd64.tar.gz" "tar.gz"
        "go-ipfs" "ipfs" "/usr/local/bin/ipfs";
      EvChmod "/usr/local/bin/ipfs" 493;
      EvClose (body_of "archive bytes");
      EvFileClose "/tmp/go-ipfs042/go-ipfs_v0.7.0_linux-amd64.tar.gz";
      EvRemoveAll "/tmp/go-ipfs042"],
     Ok "/usr/local/bin/ipfs").
Proof. reflexivity. Qed.

(** [Stat] fails and [out] may well exist: the error is returned. *)
Example FetchBinary_stat_error :
  FetchBinary
    (sample_env (daemon_ok "archive bytes") http_not_found
       (Err (PathError "stat" "/root/bin" (ExternalError "permission denied")))
       glibc)
    "go-ipfs" "v0.7.0" "go-ipfs" "ipfs" "/root/bin"
  = ([EvStat "/root/bin"],
     Err (PathError "stat" "/root/bin" (ExternalError "permission denied"))).
Proof. reflexivity. Qed.



Example FetchBinary_download_fails :
  FetchBinary (sample_env None http_not_found not_exist glibc)
    "go-ipfs" "v0.7.0" "" "ipfs" "/usr/local/bin/ipfs"
  = ([EvStat "/usr/local/bin/ipfs";
      EvTempDir "" "go-ipfs";
      EvCreate "/tmp/go-ipfs042/go-ipfs_v0.7.0_linux-amd64.tar.gz";
      EvApiEndpoint "";
      EvIsUp {| url := "127.0.0.1:5001"; timeout := 300000000000 |};
      EvHTTP "GET"
        "https://ipfs.io/ipns/dist.ipfs.io/go-ipfs/v0.7.0/go-ipfs_v0.7.0_linux-amd64.tar.gz"
        [("User-Agent", "go-ipfs")];
      EvClose (body_of "no link named versions");
      EvFileClose "/tmp/go-ipfs042/go-ipfs_v0.7.0_linux-amd64.tar.gz";
      EvRemoveAll "/tmp/go-ipfs042"],
     Err (errors_New
            "GET https://ipfs.io/ipns/dist.ipfs.io/go-ipfs/v0.7.0/go-ipfs_v0.7.0_linux-amd64.tar.gz error: 404 Not Found: no link named versions")).
Proof. reflexivity. Qed.

(* ================================================================= *)
(** ** [DistVersions] and [LatestDistVersion] *)

Lemma lines_line_then (l rest : string) :
  strings.mem "010" l = false ->
  bufio.lines (l ++ String "010" rest) = l :: bufio.lines rest.
Proof.
  induction l as [|c l IH]; intros Hm.
  - reflexivity.
  - cbn [strings.mem] in Hm. apply orb_false_iff in Hm. destruct Hm as [Hc Hm].
    cbn [String.append bufio.lines]. rewrite Ascii.eqb_sym, Hc, (IH Hm).
    reflexivity.
Qed.

Lemma lines_unlines (ls : list string) :
  Forall (fun l => strings.mem "010" l = false) ls ->
  bufio.lines (unlines ls) = ls.
Proof.
  induction 1 as [|l ls Hl HF IH]; cbn [unlines]; [reflexivity|].
  rewrite lines_line_then, IH by assumption. reflexivity.
Qed.

Lemma ScanAll_unlines (ls : list string) :
  Forall listing_line ls ->
  bufio.ScanAll (unlines ls) None = (map bufio.dropCR ls, None).
Proof.
  intros HF. unfold bufio.ScanAll.
  rewrite lines_unlines, tokens_short; [reflexivity| |].
  - eapply Forall_impl; [|exact HF]. intros l [_ H]; exact H.
  - eapply Forall_impl; [|exact HF]. intros l [H _]; exact H.
Qed.

Section Catalog.

Variable srt : sort.Sorter.
Variable env : Env.
Variable dist : string.

Lemma DistVersions_cases (sortDesc : bool) :
  let listing := fetch env (path_Join env [ipfsDistPath env; dist; distVersions]) in
  DistVersions srt env dist sortDesc =
  match outcome listing with
  | Err e => (trace listing, Err e)
  | Ok rc =>
      (trace listing ++ [EvClose (io.R (Reader rc))],
       match snd (bufio.ScanAll (fst (contents rc)) (snd (contents rc))) with
       | Some err =>
           Err (errors_New ("could not read versions: " ++ Error_string err))
       | None =>
           Ok (map render
                 (sortVersions srt sortDesc
                    (scanVersions "v"
                       (fst (bufio.ScanAll (fst (contents rc))
                               (snd (contents rc)))))))
       end)
  end.
Proof.
  cbv zeta. set (listing := fetch env _). unfold DistVersions. fold listing.
rewrite (M_eta listing) at 1.
  destruct (outcome listing) as [rc|e]; [|reflexivity].
  rewrite bind_Ok, defer_eq.
  destruct (contents rc) as [data rerr]. cbn [fst snd].
  destruct (bufio.ScanAll data rerr) as [lines [err|]]; cbn [fst snd].
  - cbn [fmt.Sprintf fmt.show]. rewrite append_nil_r. reflexivity.
  - reflexivity.
Qed.

Lemma LatestDistVersion_cases :
  LatestDistVersion srt env dist =
  match outcome (DistVersions srt env dist false) with
  | Err e => (trace (DistVersions srt env dist false), Err e)
  | Ok vs => (trace (DistVersions srt env dist false), outcome (latestNonDev vs))
  end.
Proof.
  unfold LatestDistVersion.
  rewrite (M_eta (DistVersions srt env dist false)) at 1.
  destruct (outcome (DistVersions srt env dist false)) as [vs|e]; [|reflexivity].
  rewrite bind_Ok. unfold latestNonDev.
  destruct (find _ (rev vs)); cbn; rewrite app_nil_r; reflexivity.
Qed.

End Catalog.

(** The loop of [LatestDistVersion] returns the last entry without
    [-dev]. *)
Lemma find_rev_last {A} (f : A -> bool) (vs : list A) (v : A) :
  find f (rev vs) = Some v <->
  exists pre post, vs = pre ++ v :: post /\ f v = true
                   /\ Forall (fun w => f w = false) post.
Proof.
  induction vs as [|x vs IH] using rev_ind.
  - cbn. split; [discriminate|].
    intros (pre & post & H & _). destruct pre; discriminate.
  - rewrite rev_app_distr. cbn [rev app find].
    destruct (f x) eqn:Ex.
    + split.
      * intros [= <-]. exists vs, []. repeat split; [assumption|constructor].
      * intros (pre & post & H & Hv & Hpost).
        destruct post as [|y post] using rev_ind.
        -- apply app_inj_tail in H. destruct H as [_ ->]. reflexivity.
        -- clear IHpost. rewrite app_comm_cons, app_assoc in H.
           apply app_inj_tail in H. destruct H as [_ ->].
           apply Forall_app in Hpost. destruct Hpost as [_ Hy].
           inversion Hy; subst. congruence.
    + rewrite IH. split.
      * intros (pre & post & -> & Hv & Hpost).
        exists pre, (post ++ [x]). rewrite <- app_assoc. repeat split;
          [assumption|]. apply Forall_app; split; [assumption|].
        repeat constructor; assumption.
      * intros (pre & post & H & Hv & Hpost).
        destruct post as [|y post] using rev_ind.
        -- apply app_inj_tail in H. destruct H as [_ ->]. congruence.
        -- clear IHpost. rewrite app_comm_cons, app_assoc in H.
           apply app_inj_tail in H. destruct H as [-> ->].
           apply Forall_app in Hpost. destruct Hpost as [Hpost _].
           exists pre, post. repeat split; assumption.
Qed.

Lemma find_rev_none {A} (f : A -> bool) (vs : list A) :
  find f (rev vs) = None <-> Forall (fun w => f w = false) vs.
Proof.
  split.
  - intros H. apply Forall_forall. intros w Hw.
    apply (find_none _ _ H). apply in_rev in Hw. exact Hw.
  - intros H. destruct (find f (rev vs)) as [v|] eqn:E; [|reflexivity].
    apply find_some in E. destruct E as [Hin Hv].
    apply in_rev in Hin. rewrite Forall_forall in H.
    rewrite (H _ Hin) in Hv. discriminate.
Qed.

(** C5.  Over the ascending list [vs] that [DistVersions] returns,
    [LatestDistVersion] returns [v] exactly when [v] is the last entry of
    [vs] that does not contain [-dev]; it fails, with "could not find a non
    dev version", exactly when every entry contains [-dev], the empty list
    included.  So it returns [v1.2.0] over [v1.0.0; v1.1.0-dev; v1.2.0],
    and fails over [v1.0.0-dev] and over the empty list. *)
Theorem LatestDistVersion_last_without_dev
    (srt : sort.Sorter) (env : Env) (dist : string) (vs : list string) :
  outcome (DistVersions srt env dist false) = Ok vs ->
  let latest := outcome (LatestDistVersion srt env dist) in
  let dev := fun ver => strings.Contains ver "-dev" in
  let not_found := Err (errors_New "could not find a non dev version") in
  (forall v, latest = Ok v <->
             exists pre post, vs = pre ++ v :: post /\ dev v = false
                              /\ Forall (fun w => dev w = true) post)
  /\ (latest = not_found <-> Forall (fun w => dev w = true) vs)
  /\ (vs = ["v1.0.0"; "v1.1.0-dev"; "v1.2.0"] -> latest = Ok "v1.2.0")
  /\ (vs = ["v1.0.0-dev"] -> latest = not_found)
  /\ (vs = [] -> latest = not_found).
Proof.
  intros Hvs. cbv zeta. rewrite LatestDistVersion_cases, Hvs, outcome_pair.
  unfold latestNonDev.
  set (f := fun ver => negb (strings.Contains ver "-dev")).
  assert (Hf : forall w, f w = false <-> strings.Contains w "-dev" = true)
    by (intros w; unfold f; destruct (strings.Contains w "-dev"); cbn; intuition congruence).
  assert (Hf' : forall w, f w = true <-> strings.Contains w "-dev" = false)
    by (intros w; unfold f; destruct (strings.Contains w "-dev"); cbn; intuition congruence).
  split; [|split; [|split; [|split]]].
  - intros v. destruct (find f (rev vs)) as [u|] eqn:E; cbn [outcome snd ret fail].
    + split.
      * intros [= <-]. apply find_rev_last in E.
        destruct E as (pre & post & H1 & H2 & H3).
        exists pre, post. repeat split; [assumption|apply Hf'; assumption|].
        eapply Forall_impl; [|exact H3]. intros w. apply Hf.
      * intros (pre & post & H1 & H2 & H3).
        assert (E' : find f (rev vs) = Some v).
        { apply find_rev_last. exists pre, post.
          repeat split; [assumption|apply Hf'; assumption|].
          eapply Forall_impl; [|exact H3]. intros w. apply Hf. }
        congruence.
    + split; [discriminate|].
      intros (pre & post & H1 & H2 & H3).
      assert (E' : find f (rev vs) = Some v).
      { apply find_rev_last. exists pre, post.
        repeat split; [assumption|apply Hf'; assumption|].
        eapply Forall_impl; [|exact H3]. intros w. apply Hf. }
      congruence.
  - destruct (find f (rev vs)) as [u|] eqn:E; cbn [outcome snd ret fail].
    + split; [discriminate|]. intros H.
      assert (E' : find f (rev vs) = None).
      { apply find_rev_none. eapply Forall_impl; [|exact H]. intros w. apply Hf. }
      congruence.
    + split; [|reflexivity]. intros _. apply find_rev_none in E.
      eapply Forall_impl; [|exact E]. intros w. apply Hf.
  - intros ->. reflexivity.
  - intros ->. reflexivity.
  - intros ->. reflexivity.
Qed.

(** The listing of the example, served by the daemon and sorted by Go's
    sort for small slices. *)
Lemma LatestDistVersion_last_without_dev_witness :
  let env := listing_env (unlines ["v1.2.0"; "v1.0.0"; "v1.1.0-dev"]) in
  outcome (DistVersions sort.insertionSort env "go-ipfs" false)
  = Ok ["v1.0.0"; "v1.1.0-dev"; "v1.2.0"]
  /\ outcome (LatestDistVersion sort.insertionSort env "go-ipfs") = Ok "v1.2.0".
Proof.
  cbv zeta.
  assert (H : outcome (DistVersions sort.insertionSort
                         (listing_env (unlines ["v1.2.0"; "v1.0.0"; "v1.1.0-dev"]))
                         "go-ipfs" false)
              = Ok ["v1.0.0"; "v1.1.0-dev"; "v1.2.0"]) by reflexivity.
  split; [exact H|].
  exact (proj1 (proj2 (proj2 (@LatestDistVersion_last_without_dev
                                sort.insertionSort _ "go-ipfs" _ H))) eq_refl).
Defined.

Example LatestDistVersion_only_dev :
  LatestDistVersion sort.insertionSort (listing_env (unlines ["v1.0.0-dev"])) "go-ipfs"
  = ([EvApiEndpoint "";
      EvIsUp {| url := "127.0.0.1:5001"; timeout := 300000000000 |};
      EvRequest {| url := "127.0.0.1:5001"; timeout := 300000000000 |} "cat"
        "/ipns/dist.ipfs.io/go-ipfs/versions";
      EvLog "using local ipfs daemon for transfer";
      EvClose (body_of (unlines ["v1.0.0-dev"]))],
     Err (errors_New "could not find a non dev version")).
Proof. reflexivity. Qed.

Example LatestDistVersion_empty_listing :
  outcome (LatestDistVersion sort.insertionSort (listing_env "") "go-ipfs")
  = Err (errors_New "could not find a non dev version").
Proof. reflexivity. Qed.

(** When the listing cannot be had, [LatestDistVersion] fails with the
    error of the HTTP attempt. *)
Example LatestDistVersion_no_listing :
  outcome (LatestDistVersion sort.insertionSort
             (sample_env None http_not_found not_exist glibc) "go-ipfs")
  = Err (errors_New
           "GET https://ipfs.io/ipns/dist.ipfs.io/go-ipfs/versions error: 404 Not Found: no link named versions").
Proof. reflexivity. Qed.

(** A rendered version starts with a digit or a minus sign. *)
Lemma itoa_not_v (z : Z) (rest : string) :
  strings.HasPrefix (fmt.itoa z ++ rest) "v" = false.
Proof.
  unfold fmt.itoa, strings.HasPrefix.
  destruct z as [|p|p]; cbn [Z.to_int NilZero.string_of_int]; try reflexivity.
  - unfold NilZero.string_of_uint. destruct (Pos.to_uint p); reflexivity.
Qed.

Lemma String_not_v (ver : semver.Version) :
  strings.HasPrefix (semver.String_ ver) "v" = false.
Proof.
  unfold semver.String_. cbn [fmt.Sprintf fmt.show].
  rewrite !append_assoc. apply itoa_not_v.
Qed.

(** [TrimLeft(s, "v")] takes away all the [v] in front, however many. *)
Lemma TrimLeft_v (line : string) :
  exists n : nat,
    line = (strings.Repeat "v" n ++ strings.TrimLeft line "v")%string
    /\ strings.HasPrefix (strings.TrimLeft line "v") "v" = false.
Proof.
  induction line as [|c line IH].
  - exists 0%nat. split; reflexivity.
  - cbn [strings.TrimLeft strings.mem].
    destruct (Ascii.eqb_spec c "v") as [->|Hc]; cbn [orb].
    + destruct IH as (n & Hn & Hp). exists (S n). split; [|exact Hp].
      cbn [strings.Repeat String.append]. f_equal. exact Hn.
    + exists 0%nat. split; [reflexivity|].
      unfold strings.HasPrefix. cbn [String.prefix].
      destruct (ascii_dec "v" c) as [E|]; [|reflexivity].
      symmetry in E. contradiction.
Qed.

Lemma in_scanVersions (pfx : string) (lines : list string) (ver : semver.Version) :
  In ver (scanVersions pfx lines) <->
  exists line, In line lines
               /\ semver.NewVersion (strings.TrimLeft line pfx) = Ok ver.
Proof.
  unfold scanVersions. rewrite in_flat_map. split.
  - intros (line & Hin & Hv). exists line. split; [assumption|].
    destruct (semver.NewVersion (strings.TrimLeft line pfx)) as [v|e].
    + destruct Hv as [->|[]]. reflexivity.
    + destruct Hv.
  - intros (line & Hin & Hv). exists line. split; [assumption|].
    rewrite Hv. left. reflexivity.
Qed.

Lemma sortVersions_perm (srt : sort.Sorter) (desc : bool) (vers : list semver.Version) :
  (forall A (less : sort.Less A) l, Permutation l (srt A less l)) ->
  Permutation vers (sortVersions srt desc vers).
Proof. intros H. unfold sortVersions. destruct desc; apply H. Qed.

(** C10.  Every string that [DistVersions] returns is ["v"] followed by
    the rendering of the version parsed from one of the lines scanned; the
    rendering does not begin with [v], so the string begins with exactly
    one.  The line was parsed after all its leading [v] were taken away,
    however many it had.  So the line [1.0.0] is returned as [v1.0.0], and
    so is the line [vv1.0.0]. *)
Theorem DistVersions_one_v_prefix
    (srt : sort.Sorter) (env : Env) (dist : string) (sortDesc : bool)
    (out : list string) :
  (forall A (less : sort.Less A) l, Permutation l (srt A less l)) ->
  outcome (DistVersions srt env dist sortDesc) = Ok out ->
  (forall s, In s out ->
     exists rc line ver n,
       outcome (fetch env (path_Join env [ipfsDistPath env; dist; distVersions]))
       = Ok rc
       /\ In line (fst (bufio.ScanAll (fst (contents rc)) (snd (contents rc))))
       /\ line = (strings.Repeat "v" n ++ strings.TrimLeft line "v")%string
       /\ strings.HasPrefix (strings.TrimLeft line "v") "v" = false
       /\ semver.NewVersion (strings.TrimLeft line "v") = Ok ver
       /\ s = ("v" ++ semver.String_ ver)%string
       /\ strings.HasPrefix (semver.String_ ver) "v" = false)
  /\ outcome (DistVersions srt (listing_env (unlines ["1.0.0"])) dist sortDesc)
     = Ok ["v1.0.0"]
  /\ outcome (DistVersions srt (listing_env (unlines ["vv1.0.0"])) dist sortDesc)
     = Ok ["v1.0.0"].
Proof.
  intros Hperm Hout.
  assert (Hone : forall v : semver.Version,
             sortVersions srt sortDesc [v] = [v]).
  { intros v. apply Permutation_length_1_inv.
    apply sortVersions_perm, Hperm. }
  split; [|split].
  - rewrite DistVersions_cases in Hout.
    destruct (outcome (fetch env _)) as [rc|e] eqn:Hf; [|discriminate Hout].
    rewrite outcome_pair in Hout.
    destruct (snd (bufio.ScanAll _ _)); [discriminate Hout|].
    injection Hout as <-.
    intros s Hs. apply in_map_iff in Hs. destruct Hs as (ver & <- & Hver).
    eapply Permutation_in in Hver;
      [|apply Permutation_sym, sortVersions_perm, Hperm].
    apply in_scanVersions in Hver. destruct Hver as (line & Hline & Hparse).
    destruct (TrimLeft_v line) as (n & Hn & Hp).
    exists rc, line, ver, n.
    repeat split; try assumption. apply String_not_v.
  - rewrite DistVersions_cases.
    change (outcome (fetch (listing_env (unlines ["1.0.0"])) _))
      with (Ok (newLimitReadCloser (body_of (unlines ["1.0.0"])) fetchSizeLimit)).
    cbv beta iota. rewrite outcome_pair.
    change (bufio.ScanAll _ _) with (["1.0.0"], @None error).
    cbn [fst snd]. change (scanVersions "v" ["1.0.0"])
      with [{| semver.Major := 1; semver.Minor := 0; semver.Patch := 0;
               semver.PreRelease := ""; semver.Metadata := "" |}].
    rewrite Hone. reflexivity.
  - rewrite DistVersions_cases.
    change (outcome (fetch (listing_env (unlines ["vv1.0.0"])) _))
      with (Ok (newLimitReadCloser (body_of (unlines ["vv1.0.0"])) fetchSizeLimit)).
    cbv beta iota. rewrite outcome_pair.
    change (bufio.ScanAll _ _) with (["vv1.0.0"], @None error).
    cbn [fst snd]. change (scanVersions "v" ["vv1.0.0"])
      with [{| semver.Major := 1; semver.Minor := 0; semver.Patch := 0;
               semver.PreRelease := ""; semver.Metadata := "" |}].
    rewrite Hone. reflexivity.
Qed.

(** A listing in which one valid line has no prefix, one has two and one
    is no version. *)
Lemma DistVersions_one_v_prefix_witness :
  let env := listing_env (unlines ["1.0.0"; "not a version"; "vv2.1.0-rc.1"]) in
  outcome (DistVersions sort.insertionSort env "go-ipfs" false)
  = Ok ["v1.0.0"; "v2.1.0-rc.1"]
  /\ forall s, In s ["v1.0.0"; "v2.1.0-rc.1"] ->
       exists line ver n,
         line = (strings.Repeat "v" n ++ strings.TrimLeft line "v")%string
         /\ semver.NewVersion (strings.TrimLeft line "v") = Ok ver
         /\ s = ("v" ++ semver.String_ ver)%string
         /\ strings.HasPrefix (semver.String_ ver) "v" = false.
Proof.
  cbv zeta.
  assert (H : outcome (DistVersions sort.insertionSort
                         (listing_env (unlines ["1.0.0"; "not a version"; "vv2.1.0-rc.1"]))
                         "go-ipfs" false)
              = Ok ["v1.0.0"; "v2.1.0-rc.1"]) by (vm_compute; reflexivity).
  split; [exact H|].
  intros s Hs.
  destruct (proj1 (@DistVersions_one_v_prefix sort.insertionSort _ "go-ipfs" false _
                     (fun A less l => insertionSort_perm less l) H) s Hs)
    as (rc & line & ver & n & _ & _ & Hn & _ & Hparse & Hs' & Hv).
  exists line, ver, n. repeat split; assumption.
Defined.





(* ================================================================= *)
(** ** The order of the versions returned *)









(* ================================================================= *)
(** ** [semver.Compare] and the precedence of the standard

    [semver.Compare] takes for a number what [strconv.Atoi] accepts: a
    sign is allowed and the value must fit an [int].  The standard takes
    for a number what is written with digits only.  On the identifiers
    that both read alike, [standard_identifier], the two comparisons
    agree. *)

Lemma cmpZ_zero (x y : Z) : cmpZ x y = 0 -> x = y.
Proof.
  unfold cmpZ. destruct (Z.gtb_spec x y); [discriminate|].
  destruct (Z.ltb_spec x y); [discriminate|]. lia.
Qed.






























(* ================================================================= *)
(** * Further properties of the two files *)




Lemma contents_not_EOF (rc : limitReadCloser Body) : snd (contents rc) <> Some EOF.
Proof.
  unfold contents. cbn [snd].
  destruct (io.N (Reader rc) <=? strings.len (pending (io.R (Reader rc))));
    [discriminate|].
  destruct (failure (io.R (Reader rc))) as [[]|]; cbn; discriminate.
Qed.

(** X2.  [DistVersions] returns versions only when the whole listing was
    scanned.  When a line of 64 KiB or more is met, or when the stream
    breaks off with a read error, the call fails with "could not read
    versions: ..." whatever versions were parsed from the other lines;
    the stream is closed all the same. *)
Theorem DistVersions_scan_error_discards_versions
    (srt : sort.Sorter) (env : Env) (dist : string) (sortDesc : bool)
    (t : list Event) (rc : limitReadCloser Body) :
  fetch env (path_Join env [ipfsDistPath env; dist; distVersions]) = (t, Ok rc) ->
  (forall pre l post,
      bufio.lines (fst (contents rc)) = pre ++ l :: post ->
      Forall short_line pre -> ~ short_line l ->
      DistVersions srt env dist sortDesc
      = (t ++ [EvClose (io.R (Reader rc))],
         Err (errors_New "could not read versions: bufio.Scanner: token too long")))
  /\ (forall e,
         snd (contents rc) = Some e ->
         Forall short_line (bufio.lines (fst (contents rc))) ->
         DistVersions srt env dist sortDesc
         = (t ++ [EvClose (io.R (Reader rc))],
            Err (errors_New ("could not read versions: " ++ Error_string e)))).
Proof.
  intros Hfetch. split.
  - intros pre l post Hlines Hpre Hl.
    rewrite DistVersions_cases, Hfetch, outcome_pair, trace_pair.
    unfold bufio.ScanAll. rewrite Hlines, (tokens_long post Hpre Hl).
    reflexivity.
  - intros e He Hshort.
    rewrite DistVersions_cases, Hfetch, outcome_pair, trace_pair.
    unfold bufio.ScanAll. rewrite (tokens_short Hshort), He. cbn [snd].
    destruct e; try reflexivity.
    exfalso. exact (contents_not_EOF rc He).
Qed.

Lemma DistVersions_scan_error_discards_versions_witness :
  let e := ExternalError "unexpected EOF" in
  let env :=
    sample_env (daemon_broken (unlines ["v0.4.23"; "v0.5.0"]) e)
      http_not_found not_exist glibc in
  scanVersions "v" (bufio.lines (unlines ["v0.4.23"; "v0.5.0"])) <> []
  /\ outcome (DistVersions sort.insertionSort env "go-ipfs" false)
     = Err (errors_New "could not read versions: unexpected EOF").
Proof.
  cbv zeta. split; [vm_compute; discriminate|].
  destruct (@DistVersions_scan_error_discards_versions sort.insertionSort
              (sample_env (daemon_broken (unlines ["v0.4.23"; "v0.5.0"])
                             (ExternalError "unexpected EOF"))
                 http_not_found not_exist glibc)
              "go-ipfs" false _ _ eq_refl) as [_ H].
  rewrite (H (ExternalError "unexpected EOF") eq_refl).
  - reflexivity.
  - repeat constructor; vm_compute; reflexivity.
Defined.

(** X3.  What [httpFetch] does with the response.  A status below 400
    gives the body wrapped with the limit, and the body is left open for
    the caller.  A status of 400 or more is a failure: the body is read to
    its end, without limit, and closed, and the error names the URL and
    the status and carries the whole text of the body (or says that the
    body could not be read). *)
Theorem httpFetch_by_status (env : Env) (u : string) (resp : HTTPResponse) :
  NewRequestWithContext env "GET" u = None ->
  Do env "GET" u [("User-Agent", "go-ipfs")] = Ok resp ->
  httpFetch env u =
  if StatusCode resp >=? 400 then
    ([EvHTTP "GET" u [("User-Agent", "go-ipfs")]; EvClose (RespBody resp)],
     Err (errors_New
            match hideEOF (failure (RespBody resp)) with
            | Some err => "error reading error body: " ++ Error_string err
            | None => "GET " ++ u ++ " error: " ++ Status resp ++ ": "
                        ++ pending (RespBody resp)
            end))
  else
    ([EvHTTP "GET" u [("User-Agent", "go-ipfs")]],
     Ok (newLimitReadCloser (RespBody resp) 536870912)).
Proof.
  intros Hreq Hdo. unfold httpFetch. rewrite Hreq.
  unfold try, http_Do. cbn [fst snd]. rewrite bind_Ok, Hdo.
  destruct (StatusCode resp >=? 400); [|reflexivity].
  rewrite defer_eq. unfold Body_contents.
  destruct (hideEOF (failure (RespBody resp))) as [err|];
    cbn [trace outcome fst snd fail Body_Close_call emit app
           fmt.Sprintf fmt.show String.append];
    rewrite ?append_nil_r; reflexivity.
Qed.

Lemma httpFetch_by_status_witness :
  httpFetch (sample_env None http_not_found not_exist glibc) "https://ipfs.io/p"
  = ([EvHTTP "GET" "https://ipfs.io/p" [("User-Agent", "go-ipfs")];
      EvClose (body_of "no link named versions")],
     Err (errors_New
            "GET https://ipfs.io/p error: 404 Not Found: no link named versions")).
Proof.
  exact (@httpFetch_by_status (sample_env None http_not_found not_exist glibc)
           "https://ipfs.io/p"
           {| StatusCode := 404; Status := "404 Not Found";
              RespBody := body_of "no link named versions" |}
           eq_refl eq_refl).
Defined.

(** X4.  The calls of [ipfsFetch] to the daemon.  Every call goes to the
    endpoint that [ApiEndpoint] returned, with a timeout of five minutes.
    A request is sent only to a daemon that answered that it is up, and
    the only request is [cat] of the path.  A stream is returned only if
    that request was sent and answered without error, and it is the output
    of the answer behind the limit. *)
Theorem ipfsFetch_asks_only_a_daemon_that_is_up (env : Env) (ipfsPath : string) :
  let t := trace (ipfsFetch env ipfsPath) in
  (forall sh, In (EvIsUp sh) t \/ (exists c a, In (EvRequest sh c a) t) ->
              ApiEndpoint env "" = Ok (url sh) /\ timeout sh = 300000000000)
  /\ (forall sh c a, In (EvRequest sh c a) t ->
                     IsUp env sh = true /\ c = "cat" /\ a = ipfsPath)
  /\ (forall rc, outcome (ipfsFetch env ipfsPath) = Ok rc ->
        exists sh resp,
          In (EvRequest sh "cat" ipfsPath) t
          /\ Send env sh "cat" ipfsPath = Ok resp
          /\ Error resp = None
          /\ rc = newLimitReadCloser (Output resp) 536870912).
Proof.
  cbv zeta. rewrite ipfsFetch_cases.
  destruct (ApiEndpoint env "") as [apiEp|e] eqn:Hep.
  2:{ rewrite trace_pair, outcome_pair. repeat split.
      - destruct H as [[H|[]]|(c & a & [H|[]])]; discriminate H.
      - destruct H as [[H|[]]|(c & a & [H|[]])]; discriminate H.
      - destruct H as [H|[]]; discriminate H.
      - destruct H as [H|[]]; discriminate H.
      - destruct H as [H|[]]; discriminate H.
      - intros rc H. discriminate H. }
  cbv zeta. set (sh0 := {| url := apiEp; timeout := shellTimeOut |}).
  destruct (IsUp env sh0) eqn:Hup; cbn [negb].
  2:{ rewrite trace_pair, outcome_pair. split; [|split].
      - intros sh [[H|[H|[]]]|(c & a & [H|[H|[]]])]; try discriminate H.
        injection H as <-. split; reflexivity.
      - intros sh c a [H|[H|[]]]; discriminate H.
      - intros rc H. discriminate H. }
  assert (Hall : forall sh,
             In (EvIsUp sh) [EvApiEndpoint ""; EvIsUp sh0; EvRequest sh0 "cat" ipfsPath]
             \/ (exists c a, In (EvRequest sh c a)
                               [EvApiEndpoint ""; EvIsUp sh0;
                                EvRequest sh0 "cat" ipfsPath]) ->
             sh = sh0).
  { intros sh [[H|[H|[H|[]]]]|(c & a & [H|[H|[H|[]]]])]; try discriminate H;
      injection H; intros; subst; reflexivity. }
  assert (Hreq : forall sh c a,
             In (EvRequest sh c a)
               [EvApiEndpoint ""; EvIsUp sh0; EvRequest sh0 "cat" ipfsPath] ->
             sh = sh0 /\ c = "cat" /\ a = ipfsPath).
  { intros sh c a [H|[H|[H|[]]]]; try discriminate H.
    injection H; intros; subst; repeat split. }
  destruct (Send env sh0 "cat" ipfsPath) as [resp|e] eqn:Hsend;
    rewrite trace_pair, outcome_pair.
  - split; [|split].
    + intros sh H. rewrite (Hall sh H). split; reflexivity.
    + intros sh c a H. destruct (Hreq _ _ _ H) as (-> & -> & ->).
      repeat split. exact Hup.
    + intros rc H. destruct (Error resp) eqn:Herr; [discriminate H|].
      injection H as <-. exists sh0, resp.
      repeat split; try assumption. right; right; left; reflexivity.
  - split; [|split].
    + intros sh H. rewrite (Hall sh H). split; reflexivity.
    + intros sh c a H. destruct (Hreq _ _ _ H) as (-> & -> & ->).
      repeat split. exact Hup.
    + intros rc H. discriminate H.
Qed.

(** X5.  [FetchBinary] releases what it holds in the reverse order of
    taking it, whatever happens in between.  If the archive file cannot be
    created, only the temporary directory is removed.  If no stream is
    obtained, the archive file is closed and then the directory removed.
    If a stream is obtained, the last three things done are: close the
    stream, close the archive file, remove the directory. *)
Theorem FetchBinary_releases_in_reverse_order
    (env : Env) (dist ver arcName binName out final tmpDir : string) :
  let arc := if String.eqb arcName "" then dist else arcName in
  let bin := exeName env (if String.eqb binName "" then arc else binName) in
  let call := FetchBinary env dist ver arcName binName out in
  let archive := makeArchiveName env arc ver (archiveType env) in
  let arcPath := path_Join env [tmpDir; archive] in
  outcome (outputPath env bin out) = Ok final ->
  TempDir env "" arc = Ok tmpDir ->
  match Create env arcPath with
  | Some e =>
      call = ([EvStat out; EvTempDir "" arc; EvCreate arcPath; EvRemoveAll tmpDir],
              Err e)
  | None =>
      match outcome (fetch env (makeIpfsPath env dist ver archive)) with
      | Err e =>
          outcome call = Err e
          /\ trace call
             = [EvStat out; EvTempDir "" arc; EvCreate arcPath]
                 ++ trace (fetch env (makeIpfsPath env dist ver archive))
                 ++ [EvFileClose arcPath; EvRemoveAll tmpDir]
      | Ok rc =>
          exists busy,
            trace call
            = [EvStat out; EvTempDir "" arc; EvCreate arcPath]
                ++ trace (fetch env (makeIpfsPath env dist ver archive))
                ++ EvWrite arcPath (fst (contents rc)) :: busy
                ++ [EvClose (io.R (Reader rc)); EvFileClose arcPath;
                    EvRemoveAll tmpDir]
            /\ Forall (fun ev => ev = EvFileClose arcPath \/ is_extraction ev = true)
                 busy
      end
  end.
Proof.
  cbv zeta. intros Hout Htmp. rewrite FetchBinary_eq. cbv zeta. rewrite Hout.
  set (arc := if String.eqb arcName "" then dist else arcName) in *.
  set (bin := exeName env (if String.eqb binName "" then arc else binName)) in *.
  rewrite download_cases, Htmp. cbv zeta.
  set (archive := makeArchiveName env arc ver (archiveType env)).
  set (arcPath := path_Join env [tmpDir; archive]).
  set (f := fetch env (makeIpfsPath env dist ver archive)).
  destruct (Create env arcPath) as [e|]; [reflexivity|].
  destruct (outcome f) as [rc|e].
  2:{ rewrite trace_pair, outcome_pair, trace_pair, outcome_pair.
      split; reflexivity. }
  destruct (outcome (io_Copy env arcPath rc)).
  2:{ exists []. rewrite trace_pair, trace_pair. cbn [app].
      rewrite <- !app_assoc. split; [reflexivity|constructor]. }
  destruct (unpackArchive env arcPath (archiveType env) dist bin final).
  - exists [EvFileClose arcPath; EvUnpack arcPath (archiveType env) dist bin final].
    rewrite trace_pair, trace_pair. cbn [app]. rewrite <- !app_assoc.
    split; [reflexivity|].
    constructor; [left; reflexivity|].
    constructor; [right; reflexivity|constructor].
  - exists [EvFileClose arcPath; EvUnpack arcPath (archiveType env) dist bin final;
            EvChmod final 493].
    rewrite trace_pair, trace_pair. cbn [app]. rewrite <- !app_assoc.
    split; [reflexivity|].
    constructor; [left; reflexivity|].
    constructor; [right; reflexivity|].
    constructor; [right; reflexivity|constructor].
Qed.

Lemma FetchBinary_releases_in_reverse_order_witness :
  let env := sample_env (daemon_ok "archive bytes") http_not_found not_exist glibc in
  let call := FetchBinary env "go-ipfs" "v0.7.0" "" "ipfs" "/opt/ipfs" in
  let arcPath := "/tmp/go-ipfs042/go-ipfs_v0.7.0_linux-amd64.tar.gz" in
  exists before,
    trace call
    = before ++ [EvClose (body_of "archive bytes"); EvFileClose arcPath;
                 EvRemoveAll "/tmp/go-ipfs042"].
Proof.
  cbv zeta.
  pose proof (@FetchBinary_releases_in_reverse_order
                (sample_env (daemon_ok "archive bytes") http_not_found not_exist glibc)
                "go-ipfs" "v0.7.0" "" "ipfs" "/opt/ipfs" "/opt/ipfs"
                "/tmp/go-ipfs042" eq_refl eq_refl) as H.
  cbv zeta in H.
  change (Create _ _) with (@None error) in H. cbv beta iota in H.
  change (outcome (fetch _ _))
    with (Ok (newLimitReadCloser (body_of "archive bytes") fetchSizeLimit)) in H.
  cbv beta iota in H. destruct H as (busy & Ht & _).
  match type of Ht with
  | _ = ?A ++ ?B ++ ?w :: busy ++ _ => exists (A ++ B ++ w :: busy)
  end.
  rewrite Ht, <- !app_assoc, <- app_comm_cons. reflexivity.
Defined.

Lemma fetch_asks_for (env : Env) (p : string) :
  Forall (asks_for p) (trace (fetch env p)).
Proof.
  assert (Hd : Forall (asks_for p) (trace (ipfsFetch env p))).
  { rewrite ipfsFetch_cases.
    destruct (ApiEndpoint env "") as [apiEp|e]; [|repeat constructor].
    cbv zeta. destruct (IsUp env _); [|repeat constructor]. cbn [negb].
    destruct (Send env _ "cat" p) as [resp|e]; repeat constructor. }
  assert (Hh : Forall (asks_for p) (trace (httpFetch env (gatewayURL ++ p)))).
  { unfold httpFetch.
    destruct (NewRequestWithContext env "GET" _); [constructor|].
    unfold try, http_Do. cbn [fst snd]. rewrite bind_Ok.
    destruct (Do env "GET" _ _) as [resp|e]; [|repeat constructor].
    destruct (StatusCode resp >=? 400); [|repeat constructor].
    rewrite defer_eq. destruct (Body_contents (RespBody resp)) as [mes [err|]];
      repeat constructor. }
  rewrite fetch_cases.
  destruct (outcome (ipfsFetch env p)); rewrite trace_pair;
    apply Forall_app; split; try assumption.
  repeat constructor.
Qed.

(** X6.  All that [FetchBinary] ever asks the daemon or the gateway for is
    one archive: [cat] of, or [GET] of the gateway URL followed by, the
    path [root/dist/ver/name_ver_GOOS-GOARCH.ext], where [name] is the
    archive name given, or [dist] when none is given, and [ext] is [zip]
    on Windows and [tar.gz] elsewhere. *)
Theorem FetchBinary_asks_for_one_archive
    (env : Env) (dist ver arcName binName out : string) :
  let name := if String.eqb arcName "" then dist else arcName in
  let ext := if String.eqb (GOOS env) "windows" then "zip" else "tar.gz" in
  let path := (ipfsDistPath env ++ "/" ++ dist ++ "/" ++ ver ++ "/"
                 ++ name ++ "_" ++ ver ++ "_" ++ GOOS env ++ "-" ++ GOARCH env
                 ++ "." ++ ext)%string in
  Forall (asks_for path) (trace (FetchBinary env dist ver arcName binName out)).
Proof.
  cbv zeta. rewrite FetchBinary_eq. cbv zeta.
  set (name := if String.eqb arcName "" then dist else arcName).
  set (bin := exeName env (if String.eqb binName "" then name else binName)).
  destruct (outcome (outputPath env bin out)) as [final|e];
    rewrite trace_pair; [|repeat constructor].
  constructor; [exact I|].
  rewrite download_cases. cbv zeta.
  assert (Hpath : makeIpfsPath env dist ver
                    (makeArchiveName env name ver (archiveType env))
                  = (ipfsDistPath env ++ "/" ++ dist ++ "/" ++ ver ++ "/"
                       ++ name ++ "_" ++ ver ++ "_" ++ GOOS env ++ "-"
                       ++ GOARCH env ++ "."
                       ++ (if String.eqb (GOOS env) "windows" then "zip"
                           else "tar.gz"))%string).
  { unfold makeIpfsPath, makeArchiveName, archiveType.
    cbn [fmt.Sprintf fmt.show String.append]. rewrite !append_nil_r.
    reflexivity. }
  pose proof (fetch_asks_for env
                (makeIpfsPath env dist ver
                   (makeArchiveName env name ver (archiveType env)))) as Hf.
  rewrite <- Hpath.
  set (f := fetch env _) in *.
  destruct (TempDir env "" name) as [tmpDir|]; [|repeat constructor].
  destruct (Create env _); [repeat constructor|].
  destruct (outcome f) as [rc|].
  2:{ rewrite trace_pair. repeat (constructor; [exact I|]).
      apply Forall_app. split; [exact Hf|repeat constructor]. }
  destruct (outcome (io_Copy env _ rc));
    [destruct (unpackArchive env _ _ dist bin final)|];
    rewrite trace_pair; cbn [app];
    repeat (constructor; [exact I|]);
    repeat (apply Forall_app; split); try exact Hf; repeat constructor.
Qed.

(** X7.  The answer of [osWithVariant] on a host whose shell follows
    POSIX, for an output of the probe whose lines all fit the scanner's
    buffer.  Off Linux nothing is run and the answer is [GOOS].  On Linux
    the one command run is [sh -c "ldd --version || true"]; the call fails
    exactly when [sh] cannot be run, whatever the exit status of [ldd];
    otherwise the answer is [linux-musl] if a line of the output contains
    [musl], and [linux] if none does. *)
Theorem osWithVariant_verdict (env : Env) (p : Probe) :
  probe_host env p ->
  Forall short_line (bufio.lines (ldd_output p)) ->
  osWithVariant env =
  if String.eqb (GOOS env) "linux" then
    ([EvCommand "sh" ["-c"; "ldd --version || true"]],
     match sh_fails p with
     | Some e => Err e
     | None =>
         Ok (if existsb (fun line => strings.Contains line "musl")
                  (bufio.lines (ldd_output p))
             then "linux-musl" else "linux")
     end)
  else ([], Ok (GOOS env)).
Proof.
  intros Hhost Hshort.
  destruct (String.eqb_spec (GOOS env) "linux") as [Hos|Hos].
  - apply osWithVariant_short_lines; assumption.
  - rewrite osWithVariant_cases.
    destruct (String.eqb_spec (GOOS env) "linux"); [contradiction|reflexivity].
Qed.

Lemma osWithVariant_verdict_witness :
  let env := sample_env None http_not_found not_exist (sh_ldd_or_true alpine_ldd) in
  ldd_status alpine_ldd <> 0
  /\ osWithVariant env
     = ([EvCommand "sh" ["-c"; "ldd --version || true"]], Ok "linux-musl").
Proof.
  cbv zeta. split; [discriminate|].
  rewrite (@osWithVariant_verdict
             (sample_env None http_not_found not_exist (sh_ldd_or_true alpine_ldd))
             alpine_ldd eq_refl).
  - reflexivity.
  - repeat constructor; vm_compute; reflexivity.
Defined.

(** X8.  What comes out of [newLimitReadCloser(rc, limit)] over a source
    that delivers its bytes in order is a prefix of those bytes: after
    reads with buffers of the lengths [lens], the chunks put together are
    the first [min(limit, sum of lens)] bytes of the source.  So, once the
    buffers add up to the limit or to the size of the source, they are
    the first [limit] bytes, or all of them if the source has fewer. *)
Theorem limitReadCloser_delivers_a_prefix (b : Body) (limit : Z) (lens : list Z) :
  0 <= limit ->
  Forall (fun k => 0 <= k) lens ->
  let got := concat_chunks (fst (reads (newLimitReadCloser b limit) lens)) in
  got = strings.take (Z.min limit (sumZ lens)) (pending b)
  /\ (Z.min limit (strings.len (pending b)) <= sumZ lens ->
      got = strings.take limit (pending b)
      /\ got = fst (contents (newLimitReadCloser b limit))
      /\ strings.len got = Z.min limit (strings.len (pending b))).
Proof.
  intros Hlimit Hlens. cbv zeta. split.
  - apply reads_Body_concat; assumption.
  - intros Hsum. rewrite (reads_Body_contents b Hlimit Hlens Hsum).
    cbn [contents newLimitReadCloser io.LimitReader Reader io.N io.R fst].
    repeat split. apply take_len. assumption.
Qed.

Lemma limitReadCloser_delivers_a_prefix_witness :
  let b := body_of "0123456789" in
  concat_chunks (fst (reads (newLimitReadCloser b 4) [3; 0; 5; 2])) = "0123"
  /\ concat_chunks (fst (reads (newLimitReadCloser b fetchSizeLimit) [3; 0; 5; 2]))
     = "0123456789".
Proof.
  cbv zeta.
  assert (HF : Forall (fun k => 0 <= k) [3; 0; 5; 2])
    by (repeat constructor; lia).
  split.
  - destruct (@limitReadCloser_delivers_a_prefix (body_of "0123456789") 4
                [3; 0; 5; 2] ltac:(lia) HF) as [_ H].
    destruct H as [H _]; [vm_compute; discriminate|]. rewrite H. reflexivity.
  - destruct (@limitReadCloser_delivers_a_prefix (body_of "0123456789")
                fetchSizeLimit [3; 0; 5; 2] ltac:(unfold fetchSizeLimit; lia) HF)
      as [_ H].
    destruct H as [H _]; [vm_compute; discriminate|]. rewrite H. reflexivity.
Defined.

(** X9.  [FetchBinary] returns a path only after every step has
    succeeded, and then it has done exactly this, in this order: look at
    [out], make the temporary directory, create the archive file, fetch,
    copy the stream into the archive file and close it, unpack the binary
    from it to the final path, set the mode of the final path to 0755,
    and release the stream, the file and the directory.  The path
    returned is the final path. *)
Theorem FetchBinary_success_trace
    (env : Env) (dist ver arcName binName out p : string) :
  let arc := if String.eqb arcName "" then dist else arcName in
  let bin := exeName env (if String.eqb binName "" then arc else binName) in
  let atype := archiveType env in
  let archive := makeArchiveName env arc ver atype in
  outcome (FetchBinary env dist ver arcName binName out) = Ok p ->
  exists tmpDir rc,
    let arcPath := path_Join env [tmpDir; archive] in
    outcome (outputPath env bin out) = Ok p
    /\ TempDir env "" arc = Ok tmpDir
    /\ Create env arcPath = None
    /\ outcome (fetch env (makeIpfsPath env dist ver archive)) = Ok rc
    /\ is_ok (outcome (io_Copy env arcPath rc)) = true
    /\ unpackArchive env arcPath atype dist bin p = None
    /\ Chmod env p 493 = None
    /\ trace (FetchBinary env dist ver arcName binName out)
       = [EvStat out; EvTempDir "" arc; EvCreate arcPath]
           ++ trace (fetch env (makeIpfsPath env dist ver archive))
           ++ [EvWrite arcPath (fst (contents rc)); EvFileClose arcPath;
               EvUnpack arcPath atype dist bin p; EvChmod p 493;
               EvClose (io.R (Reader rc)); EvFileClose arcPath;
               EvRemoveAll tmpDir].
Proof.
  cbv zeta. rewrite FetchBinary_eq. cbv zeta.
  set (arc := if String.eqb arcName "" then dist else arcName).
  set (bin := exeName env (if String.eqb binName "" then arc else binName)).
  destruct (outcome (outputPath env bin out)) as [final|e] eqn:Hout;
    [|rewrite outcome_pair; discriminate].
  rewrite trace_pair, outcome_pair, download_cases. cbv zeta.
  set (archive := makeArchiveName env arc ver (archiveType env)).
  destruct (TempDir env "" arc) as [tmpDir|] eqn:Htmp;
    [|rewrite outcome_pair; discriminate].
  set (arcPath := path_Join env [tmpDir; archive]).
  destruct (Create env arcPath) eqn:Hcreate;
    [rewrite outcome_pair; discriminate|].
  destruct (outcome (fetch env (makeIpfsPath env dist ver archive)))
    as [rc|] eqn:Hfetch; [|rewrite outcome_pair; discriminate].
  destruct (outcome (io_Copy env arcPath rc)) eqn:Hcopy;
    [|rewrite outcome_pair; discriminate].
  destruct (unpackArchive env arcPath (archiveType env) dist bin final) eqn:Hunpack;
    [rewrite outcome_pair; discriminate|].
  rewrite trace_pair, outcome_pair.
  destruct (Chmod env final 493) eqn:Hchmod; [discriminate|].
  intros H. injection H as <-.
  exists tmpDir, rc. cbv zeta. fold arcPath.
  repeat split; try assumption; try reflexivity.
  - rewrite Hcopy. reflexivity.
  - cbn [app]. f_equal. rewrite <- !app_assoc. reflexivity.
Qed.

Lemma FetchBinary_success_trace_witness :
  let env := sample_env (daemon_ok "archive bytes") http_not_found
               (Ok {| IsDir := true |}) glibc in
  outcome (FetchBinary env "go-ipfs" "v0.7.0" "" "ipfs" "/usr/local/bin")
  = Ok "/usr/local/bin/ipfs"
  /\ exists tmpDir rc,
       unpackArchive env
         (path_Join env [tmpDir; "go-ipfs_v0.7.0_linux-amd64.tar.gz"])
         "tar.gz" "go-ipfs" "ipfs" "/usr/local/bin/ipfs" = None
       /\ outcome (fetch env
                     "/ipns/dist.ipfs.io/go-ipfs/v0.7.0/go-ipfs_v0.7.0_linux-amd64.tar.gz")
          = Ok rc.
Proof.
  cbv zeta. split; [reflexivity|].
  destruct (@FetchBinary_success_trace
              (sample_env (daemon_ok "archive bytes") http_not_found
                 (Ok {| IsDir := true |}) glibc)
              "go-ipfs" "v0.7.0" "" "ipfs" "/usr/local/bin" "/usr/local/bin/ipfs"
              eq_refl)
    as (tmpDir & rc & _ & _ & _ & Hfetch & _ & Hunpack & _).
  exists tmpDir, rc. split; [exact Hunpack|exact Hfetch].
Defined.

(* ================================================================= *)
(** ** Ties of [semver.Compare] *)

Lemma strCmp_zero (a b : string) : strCmp a b = 0 -> a = b.
Proof.
  unfold strCmp, semver.string_gt, semver.string_lt.
  destruct (String.compare a b) eqn:E; try discriminate.
  intros _. apply String.compare_eq_iff. exact E.
Qed.

Lemma lexc_zero {A} (c1 c2 : A -> A -> Z) (a b : A) :
  lexc c1 c2 a b = 0 -> c1 a b = 0 /\ c2 a b = 0.
Proof.
  unfold lexc. destruct (Z.eqb_spec (c1 a b) 0); cbn [negb]; intros H.
  - split; assumption.
  - contradiction.
Qed.

Lemma identCmp_zero (a b : string) : identCmp a b = 0 -> a = b.
Proof.
  unfold identCmp. intros H.
  apply lexc_zero in H. destruct H as [_ H].
  apply lexc_zero in H. destruct H as [_ H].
  apply strCmp_zero. exact H.
Qed.

Lemma listc_zero {A} (c : A -> A -> Z) :
  (forall a b, c a b = 0 -> a = b) ->
  forall l m, listc c l m = 0 -> l = m.
Proof.
  intros Hc. induction l as [|a l IH]; intros [|b m]; cbn [listc];
    try discriminate; [reflexivity|].
  destruct (Z.eqb_spec (c a b) 0) as [E|N]; cbn [negb]; intros H.
  - f_equal; [apply Hc; exact E|apply IH; exact H].
  - contradiction.
Qed.

Lemma Split_not_nil (s : string) (d : ascii) : strings.Split s d <> [].
Proof.
  destruct s as [|c s]; cbn [strings.Split]; [discriminate|].
  destruct (Ascii.eqb c d); [discriminate|].
  destruct (strings.Split s d); discriminate.
Qed.

Lemma Split_inj (d : ascii) : forall a b : string,
  strings.Split a d = strings.Split b d -> a = b.
Proof.
  induction a as [|c a IH]; intros [|c' b]; cbn [strings.Split].
  - reflexivity.
  - destruct (Ascii.eqb c' d).
    + intros H. injection H as H. symmetry in H.
      exfalso. exact (Split_not_nil _ _ H).
    + destruct (strings.Split b d); discriminate.
  - destruct (Ascii.eqb c d).
    + intros H. injection H as H. exfalso. exact (Split_not_nil _ _ H).
    + destruct (strings.Split a d); discriminate.
  - destruct (Ascii.eqb_spec c d) as [->|Hc], (Ascii.eqb_spec c' d) as [->|Hc'].
    + intros H. injection H as H. f_equal. apply IH. exact H.
    + destruct (strings.Split b d); discriminate.
    + destruct (strings.Split a d); discriminate.
    + destruct (strings.Split a d) as [|p ps] eqn:Ea;
        [exfalso; exact (Split_not_nil _ _ Ea)|].
      destruct (strings.Split b d) as [|p' ps'] eqn:Eb;
        [exfalso; exact (Split_not_nil _ _ Eb)|].
      intros H. injection H as -> -> ->. f_equal. apply IH.
      rewrite Eb. reflexivity.
Qed.

(** X10.  The comparison by which [DistVersions] sorts.  [Compare] is a
    three-way comparison for a total preorder, so that [Less], and its
    reverse, are strict weak orders, as [sort.Sort] needs; and two
    versions have the same precedence exactly when they agree on major,
    minor, patch and pre-release, that is, differ at most in their build
    metadata. *)
Theorem Compare_ties_differ_in_metadata_only :
  (forall a b, semver.Compare b a = - semver.Compare a b)
  /\ (forall a b c, semver.Compare a b <= 0 -> semver.Compare b c <= 0 ->
                    semver.Compare a c <= 0)
  /\ sort.StrictWeak semver.Versions_Less
  /\ sort.StrictWeak (sort.Reverse semver.Versions_Less)
  /\ (forall a b,
         semver.Compare a b = 0 <->
         semver.Major a = semver.Major b /\ semver.Minor a = semver.Minor b
         /\ semver.Patch a = semver.Patch b
         /\ semver.PreRelease a = semver.PreRelease b).
Proof.
  split; [exact (cmp_antisym Cmp_Compare)|].
  split; [exact (cmp_trans Cmp_Compare)|].
  split; [exact StrictWeak_Versions_Less|].
  split; [exact (StrictWeak_Reverse StrictWeak_Versions_Less)|].
  intros a b. rewrite Compare_compareKey. unfold compareKey. split.
  - intros H.
    apply lexc_zero in H. destruct H as [H1 H].
    apply lexc_zero in H. destruct H as [H2 H].
    apply lexc_zero in H. destruct H as [H3 H].
    apply lexc_zero in H. destruct H as [_ H4].
    unfold pull in *.
    repeat split; try (apply cmpZ_zero; assumption).
    apply (Split_inj "."). unfold preKey, semver.PreRelease_Slice in H4.
    apply (@listc_zero _ identCmp identCmp_zero). exact H4.
  - intros (H1 & H2 & H3 & H4).
    unfold lexc, pull, preFlag, preKey. rewrite H1, H2, H3, H4.
    rewrite !(cmp_refl Cmp_cmpZ). cbn [Z.eqb negb].
    apply (cmp_refl (Cmp_listc Cmp_identCmp)).
Qed.

(* ================================================================= *)
(** ** Printing and parsing numbers *)

Lemma of_uint_acc_ge (d : Decimal.uint) : forall acc : positive,
  (acc <= Pos.of_uint_acc d acc)%positive.
Proof.
  induction d as [|d IH|d IH|d IH|d IH|d IH|d IH|d IH|d IH|d IH|d IH];
    intros acc; cbn [Pos.of_uint_acc];
    [apply Pos.le_refl|..];
    (eapply Pos.le_trans; [|apply IH]); lia.
Qed.

Lemma digits_of_uint_acc (d : Decimal.uint) : forall acc : positive,
  Z.pos (Pos.of_uint_acc d acc) < 2 ^ 64 ->
  strconv.digits (NilEmpty.string_of_uint d) (Z.pos acc)
  = Ok (Z.pos (Pos.of_uint_acc d acc)).
Proof.
  induction d as [|d IH|d IH|d IH|d IH|d IH|d IH|d IH|d IH|d IH|d IH];
    intros acc Hlt; cbn [Pos.of_uint_acc NilEmpty.string_of_uint strconv.digits] in *;
    [reflexivity|..];
    match goal with
    | |- context [strconv.digit ?c] =>
        let v := eval vm_compute in (strconv.digit c) in
        change (strconv.digit c) with v
    end; cbv beta iota;
    match goal with
    | H : Z.pos (Pos.of_uint_acc d ?a) < _ |- context [2 ^ 64 <=? ?x] =>
        pose proof (of_uint_acc_ge d a) as Hge;
        destruct (Z.leb_spec (2 ^ 64) x) as [Hle|_];
        [exfalso; lia|];
        rewrite <- (IH a Hlt); f_equal; lia
    end.
Qed.

Lemma digits_of_uint (d : Decimal.uint) :
  Z.of_N (Pos.of_uint d) < 2 ^ 64 ->
  strconv.digits (NilEmpty.string_of_uint d) 0 = Ok (Z.of_N (Pos.of_uint d)).
Proof.
  induction d as [|d IH|d IH|d IH|d IH|d IH|d IH|d IH|d IH|d IH|d IH];
    intros Hlt; cbn [Pos.of_uint NilEmpty.string_of_uint strconv.digits] in *;
    [reflexivity|..];
    match goal with
    | |- context [strconv.digit ?c] =>
        let v := eval vm_compute in (strconv.digit c) in
        change (strconv.digit c) with v
    end; cbv beta iota; cbn [Z.mul Z.add Z.leb Z.compare Z.pow Z.pow_pos Pos.iter];
    [apply IH; exact Hlt|..];
    match goal with
    | |- context [if ?b then _ else _] =>
        replace b with false by (symmetry; apply Z.leb_gt; lia)
    end;
    cbn [Z.of_N] in *; apply digits_of_uint_acc; exact Hlt.
Qed.

Lemma string_of_uint_digits (d : Decimal.uint) :
  forall_chars is_digit (NilEmpty.string_of_uint d) = true.
Proof.
  induction d; cbn [NilEmpty.string_of_uint forall_chars];
    [reflexivity|..]; rewrite IHd; reflexivity.
Qed.

Lemma itoa_nonneg (z : Z) :
  0 <= z ->
  exists c s, fmt.itoa z = String c s
              /\ is_digit c = true /\ forall_chars is_digit s = true.
Proof.
  intros Hz. unfold fmt.itoa. destruct z as [|p|p]; [| |lia].
  - exists "0"%char, EmptyString. repeat split.
  - cbn [Z.to_int NilZero.string_of_int]. unfold NilZero.string_of_uint.
    pose proof (string_of_uint_digits (Pos.to_uint p)) as Hd.
    pose proof (DecimalPos.Unsigned.to_uint_nonnil p) as Hn.
    destruct (Pos.to_uint p); [congruence|..];
      cbn [NilEmpty.string_of_uint forall_chars] in *;
      apply andb_true_iff in Hd; destruct Hd as [Hc Hs];
      eexists; eexists; repeat split; assumption.
Qed.

(** What [ParseInt] reads back from the decimal print of a number that
    fits a non-negative [int64] is that number. *)
Lemma ParseInt_itoa (z : Z) :
  0 <= z < 2 ^ 63 -> strconv.ParseInt (fmt.itoa z) = Ok z.
Proof.
  intros Hz. unfold fmt.itoa. destruct z as [|p|p]; [reflexivity| |lia].
  cbn [Z.to_int NilZero.string_of_int]. unfold NilZero.string_of_uint.
  pose proof (DecimalPos.Unsigned.to_uint_nonnil p) as Hn.
  pose proof (DecimalPos.Unsigned.of_to p) as Hof.
  assert (Hd : strconv.digits (NilEmpty.string_of_uint (Pos.to_uint p)) 0
               = Ok (Z.pos p)).
  { rewrite digits_of_uint; rewrite Hof; [reflexivity|]. cbn [Z.of_N]. lia. }
  destruct (Pos.to_uint p); [congruence|..];
    cbn [NilEmpty.string_of_uint] in *;
    unfold strconv.ParseInt, strconv.ParseUint;
    match goal with
    | |- context [Ascii.eqb ?c "-"] =>
        change (Ascii.eqb c "-") with false;
        change (Ascii.eqb c "+") with false
    end; cbn [orb negb andb]; rewrite Hd;
    (destruct (Z.leb_spec (2 ^ 63) (Z.pos p)); [lia|reflexivity]).
Qed.

Lemma forall_chars_app (f : ascii -> bool) (s t : string) :
  forall_chars f (s ++ t) = forall_chars f s && forall_chars f t.
Proof.
  induction s as [|c s IH]; cbn [String.append forall_chars]; [reflexivity|].
  rewrite IH, andb_assoc. reflexivity.
Qed.

Lemma forall_chars_impl (f g : ascii -> bool) (s : string) :
  (forall c, f c = true -> g c = true) ->
  forall_chars f s = true -> forall_chars g s = true.
Proof.
  intros Hfg. induction s as [|c s IH]; cbn [forall_chars]; [reflexivity|].
  intros H. apply andb_true_iff in H. destruct H as [Hc Hs].
  rewrite (Hfg _ Hc), (IH Hs). reflexivity.
Qed.

Lemma forall_chars_not_mem (f : ascii -> bool) (c : ascii) (s : string) :
  f c = false -> forall_chars f s = true -> strings.mem c s = false.
Proof.
  intros Hc. induction s as [|d s IH]; cbn [forall_chars strings.mem];
    [reflexivity|].
  intros H. apply andb_true_iff in H. destruct H as [Hd Hs].
  rewrite (IH Hs), orb_false_r.
  destruct (Ascii.eqb_spec c d) as [->|]; [congruence|reflexivity].
Qed.

(** The bytes of a valid identifier are letters, digits, hyphens and the
    dots between its parts. *)
Lemma Split_chars (f : ascii -> bool) (id : string) :
  forallb (forall_chars f) (strings.Split id ".") = true ->
  forall_chars (fun c => f c || Ascii.eqb c ".") id = true.
Proof.
  induction id as [|c id IH]; [reflexivity|].
  cbn [strings.Split forall_chars].
  destruct (Ascii.eqb_spec c ".") as [->|Hc].
  - cbn [forallb forall_chars]. intros H. rewrite orb_true_r. cbn [andb].
    apply IH. exact H.
  - destruct (strings.Split id ".") as [|p ps] eqn:E;
      [exfalso; exact (Split_not_nil _ _ E)|].
    cbn [forallb forall_chars]. intros H.
    apply andb_true_iff in H. destruct H as [H Hps].
    apply andb_true_iff in H. destruct H as [Hfc Hp].
    rewrite Hfc. cbn [orb andb]. apply IH. cbn [forallb].
    rewrite Hp, Hps. reflexivity.
Qed.

Lemma allIdentChars_forall_chars (s : string) :
  semver.allIdentChars s = forall_chars semver.isIdentChar s.
Proof.
  induction s as [|c s IH]; cbn [semver.allIdentChars forall_chars];
    [reflexivity|rewrite IH; reflexivity].
Qed.

Lemma validateIdentifier_chars (id : string) :
  semver.validateIdentifier id = None ->
  forall_chars is_ident_or_dot id = true.
Proof.
  unfold semver.validateIdentifier.
  destruct (String.eqb_spec id EmptyString) as [->|Hne]; [reflexivity|].
  cbn [negb andb]. destruct (semver.reIdentifier id) eqn:E; [|discriminate].
  intros _. unfold semver.reIdentifier in E.
  apply (Split_chars semver.isIdentChar).
  rewrite forallb_forall in *. intros part Hpart.
  specialize (E part Hpart). apply andb_true_iff in E. destruct E as [_ E].
  rewrite <- allIdentChars_forall_chars. exact E.
Qed.

(* ================================================================= *)
(** ** Printing and parsing versions *)

Lemma cut_at (d : ascii) (a b : string) :
  strings.mem d a = false -> strings.cut (a ++ String d b) d = Some (a, b).
Proof.
  induction a as [|c a IH]; cbn [String.append strings.cut strings.mem].
  - intros _. rewrite Ascii.eqb_refl. reflexivity.
  - intros H. apply orb_false_iff in H. destruct H as [Hc Ha].
    rewrite Ascii.eqb_sym, Hc, (IH Ha). reflexivity.
Qed.

Lemma cut_none (d : ascii) (s : string) :
  strings.mem d s = false -> strings.cut s d = None.
Proof.
  induction s as [|c s IH]; cbn [strings.cut strings.mem]; [reflexivity|].
  intros H. apply orb_false_iff in H. destruct H as [Hc Hs].
  rewrite Ascii.eqb_sym, Hc, (IH Hs). reflexivity.
Qed.

(** [splitOff] gives back what was put behind the delimiter. *)
Lemma splitOff_suffix (d : ascii) (x y : string) :
  strings.mem d x = false ->
  semver.splitOff (x ++ (if String.eqb y "" then "" else String d y)) d = (x, y).
Proof.
  intros Hx. unfold semver.splitOff. cbn [strings.SplitN].
  destruct (String.eqb_spec y "") as [->|Hy].
  - rewrite append_nil_r, (@cut_none d x Hx). reflexivity.
  - rewrite (@cut_at d x y Hx). reflexivity.
Qed.

Lemma SplitN_three (d : ascii) (a b c : string) :
  strings.mem d a = false -> strings.mem d b = false ->
  strings.SplitN (a ++ String d (b ++ String d c)) d 3 = [a; b; c].
Proof.
  intros Ha Hb. cbn [strings.SplitN].
  rewrite (@cut_at d a _ Ha), (@cut_at d b c Hb). reflexivity.
Qed.

Lemma itoa_digits (z : Z) :
  0 <= z -> forall_chars is_digit (fmt.itoa z) = true.
Proof.
  intros Hz. destruct (itoa_nonneg Hz) as (c & s & -> & Hc & Hs).
  cbn [forall_chars]. rewrite Hc, Hs. reflexivity.
Qed.

Lemma String_parts (v : semver.Version) :
  semver.String_ v =
  (((fmt.itoa (semver.Major v)
       ++ String "." (fmt.itoa (semver.Minor v)
                        ++ String "." (fmt.itoa (semver.Patch v))))
      ++ (if String.eqb (semver.PreRelease v) "" then ""
          else String "-" (semver.PreRelease v)))
     ++ (if String.eqb (semver.Metadata v) "" then ""
         else String "+" (semver.Metadata v)))%string.
Proof.
  unfold semver.String_. cbn [fmt.Sprintf fmt.show String.append].
  rewrite !append_nil_r.
  destruct (String.eqb (semver.PreRelease v) ""),
           (String.eqb (semver.Metadata v) "");
    cbn [String.append]; rewrite ?append_nil_r, ?append_assoc;
    cbn [String.append]; rewrite ?append_assoc; cbn [String.append];
    reflexivity.
Qed.

(** [NewVersion] reads back the version that [String] printed. *)
Lemma NewVersion_String (v : semver.Version) :
  well_formed v -> semver.NewVersion (semver.String_ v) = Ok v.
Proof.
  intros (HM & Hm & Hp & Hpre & Hmeta).
  rewrite String_parts.
  set (A := fmt.itoa (semver.Major v)).
  set (B := fmt.itoa (semver.Minor v)).
  set (C := fmt.itoa (semver.Patch v)).
  set (nums := (A ++ String "." (B ++ String "." C))%string).
  assert (HA : forall_chars is_digit A = true) by (apply itoa_digits; lia).
  assert (HB : forall_chars is_digit B = true) by (apply itoa_digits; lia).
  assert (HC : forall_chars is_digit C = true) by (apply itoa_digits; lia).
  assert (Hnums : forall c, is_digit c = false -> Ascii.eqb c "." = false ->
                            strings.mem c nums = false).
  { intros c Hc Hdot. unfold nums.
    rewrite mem_append. cbn [strings.mem]. rewrite mem_append. cbn [strings.mem].
    rewrite (@forall_chars_not_mem is_digit c A Hc HA),
      (@forall_chars_not_mem is_digit c B Hc HB),
      (@forall_chars_not_mem is_digit c C Hc HC), Hdot. reflexivity. }
  assert (Hplus : strings.mem "+"
                    (nums ++ (if String.eqb (semver.PreRelease v) "" then ""
                              else String "-" (semver.PreRelease v)))%string
                  = false).
  { rewrite mem_append, (Hnums "+"%char eq_refl eq_refl).
    destruct (String.eqb (semver.PreRelease v) ""); [reflexivity|].
    cbn [strings.mem orb Ascii.eqb Bool.eqb].
    apply (@forall_chars_not_mem is_ident_or_dot); [reflexivity|].
    apply validateIdentifier_chars. exact Hpre. }
  unfold semver.NewVersion.
  rewrite (@splitOff_suffix "+" _ (semver.Metadata v) Hplus).
  rewrite (@splitOff_suffix "-" nums (semver.PreRelease v)
             (Hnums "-"%char eq_refl eq_refl)).
  unfold nums.
  rewrite (@SplitN_three "." A B C
             (@forall_chars_not_mem is_digit "." A eq_refl HA)
             (@forall_chars_not_mem is_digit "." B eq_refl HB)).
  rewrite Hpre, Hmeta.
  unfold A, B, C. rewrite !ParseInt_itoa by assumption.
  destruct v; reflexivity.
Qed.

Lemma digits_bounds (s : string) : forall acc z,
  0 <= acc < 2 ^ 64 -> strconv.digits s acc = Ok z -> 0 <= z < 2 ^ 64.
Proof.
  induction s as [|c s IH]; intros acc z Hacc; cbn [strconv.digits].
  - intros [= <-]. exact Hacc.
  - unfold strconv.digit.
    destruct ((48 <=? Z.of_N (N_of_ascii c)) && (Z.of_N (N_of_ascii c) <=? 57))
      eqn:Hd; [|discriminate].
    apply andb_true_iff in Hd. destruct Hd as [H1 H2].
    apply Z.leb_le in H1, H2.
    destruct (Z.leb_spec (2 ^ 64) (10 * acc + (Z.of_N (N_of_ascii c) - 48)));
      [discriminate|].
    apply IH. lia.
Qed.

Lemma ParseInt_range (s : string) (z : Z) :
  strings.mem "-" s = false -> strconv.ParseInt s = Ok z -> 0 <= z < 2 ^ 63.
Proof.
  destruct s as [|c s]; [discriminate|].
  cbn [strings.mem]. intros Hm. apply orb_false_iff in Hm. destruct Hm as [Hc _].
  rewrite Ascii.eqb_sym in Hc.
  unfold strconv.ParseInt. rewrite Hc, orb_false_r.
  cbn [negb andb].
  set (s0 := if Ascii.eqb c "+" then s else String c s).
  unfold strconv.ParseUint.
  destruct s0 as [|c0 s0'] eqn:E; [discriminate|].
  destruct (strconv.digits (String c0 s0') 0) as [un|] eqn:Hd; [|discriminate].
  apply digits_bounds in Hd; [|lia].
  destruct (Z.leb_spec (2 ^ 63) un); [discriminate|].
  intros [= <-]. lia.
Qed.

Lemma cut_some (d : ascii) : forall s a b,
  strings.cut s d = Some (a, b) ->
  strings.mem d a = false
  /\ forall c, strings.mem c s = false ->
               strings.mem c a = false /\ strings.mem c b = false.
Proof.
  induction s as [|c0 s IH]; intros a b; cbn [strings.cut]; [discriminate|].
  destruct (Ascii.eqb_spec c0 d) as [->|Hc].
  - intros [= <- <-]. split; [reflexivity|].
    intros c. cbn [strings.mem]. intros H. apply orb_false_iff in H.
    split; [reflexivity|apply H].
  - destruct (strings.cut s d) as [[a' b']|] eqn:E; [|discriminate].
    intros [= <- <-]. destruct (IH _ _ eq_refl) as [Ha Hall].
    split.
    + cbn [strings.mem]. rewrite Ha, orb_false_r.
      destruct (Ascii.eqb_spec d c0); [congruence|reflexivity].
    + intros c. cbn [strings.mem]. intros H. apply orb_false_iff in H.
      destruct H as [Hc0 Hs]. destruct (Hall c Hs) as [H1 H2].
      rewrite Hc0, H1, H2. split; reflexivity.
Qed.

Lemma cut_none_mem (d : ascii) (s : string) :
  strings.cut s d = None -> strings.mem d s = false.
Proof.
  induction s as [|c s IH]; cbn [strings.cut strings.mem]; [reflexivity|].
  destruct (Ascii.eqb_spec c d) as [->|Hc]; [discriminate|].
  destruct (strings.cut s d) as [[a b]|]; [discriminate|].
  intros _. rewrite (IH eq_refl), orb_false_r.
  destruct (Ascii.eqb_spec d c); [congruence|reflexivity].
Qed.

Lemma splitOff_rest (d : ascii) (s : string) :
  strings.mem d (fst (semver.splitOff s d)) = false
  /\ forall c, strings.mem c s = false ->
               strings.mem c (fst (semver.splitOff s d)) = false.
Proof.
  unfold semver.splitOff. cbn [strings.SplitN].
  destruct (strings.cut s d) as [[a b]|] eqn:E; cbn [fst].
  - destruct (cut_some _ _ E) as [Ha Hall]. split; [exact Ha|].
    intros c Hc. apply (Hall c Hc).
  - split; [apply cut_none_mem; exact E|]. intros c Hc; exact Hc.
Qed.

Lemma SplitN_three_mem (d c : ascii) (s p0 p1 p2 : string) :
  strings.SplitN s d 3 = [p0; p1; p2] ->
  strings.mem c s = false ->
  strings.mem c p0 = false /\ strings.mem c p1 = false
  /\ strings.mem c p2 = false.
Proof.
  cbn [strings.SplitN].
  destruct (strings.cut s d) as [[a b]|] eqn:E; [|discriminate].
  destruct (strings.cut b d) as [[a' b']|] eqn:E'; [|discriminate].
  intros [= <- <- <-] Hc.
  destruct (cut_some _ _ E) as [_ H]. destruct (H c Hc) as [Ha Hb].
  destruct (cut_some _ _ E') as [_ H']. destruct (H' c Hb) as [Ha' Hb'].
  repeat split; assumption.
Qed.

(** What [NewVersion] accepts is well formed. *)
Lemma NewVersion_well_formed (s : string) (v : semver.Version) :
  semver.NewVersion s = Ok v -> well_formed v.
Proof.
  unfold semver.NewVersion.
  destruct (semver.splitOff s "+") as [v1 meta] eqn:E1.
  destruct (semver.splitOff v1 "-") as [v2 pre] eqn:E2.
  pose proof (proj1 (splitOff_rest "-" v1)) as Hminus.
  rewrite E2 in Hminus. cbn [fst] in Hminus.
  destruct (strings.SplitN v2 "." 3) as [|p0 [|p1 [|p2 [|]]]] eqn:E3;
    try discriminate.
  destruct (@SplitN_three_mem "." "-" v2 p0 p1 p2 E3 Hminus) as (H0 & H1 & H2).
  destruct (semver.validateIdentifier pre) eqn:Hpre; [discriminate|].
  destruct (semver.validateIdentifier meta) eqn:Hmeta; [discriminate|].
  destruct (strconv.ParseInt p0) as [major|] eqn:P0; [|discriminate].
  destruct (strconv.ParseInt p1) as [minor|] eqn:P1; [|discriminate].
  destruct (strconv.ParseInt p2) as [patch|] eqn:P2; [|discriminate].
  intros [= <-]. unfold well_formed. cbn.
  repeat split; try assumption;
    try (eapply ParseInt_range; [|eassumption]; assumption).
Qed.

Lemma dropCR_id (s : string) : strings.mem "013" s = false -> bufio.dropCR s = s.
Proof.
  induction s as [|c s IH]; [reflexivity|].
  cbn [strings.mem]. intros H. apply orb_false_iff in H. destruct H as [Hc Hs].
  destruct s as [|d s'].
  - cbn [bufio.dropCR]. rewrite Ascii.eqb_sym, Hc. reflexivity.
  - change (bufio.dropCR (String c (String d s')))
      with (String c (bufio.dropCR (String d s'))).
    rewrite (IH Hs). reflexivity.
Qed.

Lemma TrimLeft_id (s : string) :
  strings.HasPrefix s "v" = false -> strings.TrimLeft s "v" = s.
Proof.
  destruct s as [|c s]; [reflexivity|].
  unfold strings.HasPrefix. cbn [String.prefix strings.TrimLeft strings.mem].
  destruct (ascii_dec "v" c) as [<-|Hc].
  - destruct s; discriminate.
  - intros _. destruct (Ascii.eqb_spec c "v") as [->|]; [congruence|reflexivity].
Qed.

Lemma String_no_CR (v : semver.Version) :
  well_formed v -> strings.mem "013" (semver.String_ v) = false.
Proof.
  intros (HM & Hm & Hp & Hpre & Hmeta). rewrite String_parts.
  rewrite !mem_append. cbn [strings.mem]. rewrite !mem_append. cbn [strings.mem].
  rewrite (@forall_chars_not_mem is_digit "013" _ eq_refl
             (itoa_digits (proj1 HM))),
    (@forall_chars_not_mem is_digit "013" _ eq_refl (itoa_digits (proj1 Hm))),
    (@forall_chars_not_mem is_digit "013" _ eq_refl (itoa_digits (proj1 Hp))).
  cbn [orb Ascii.eqb Bool.eqb].
  pose proof (@forall_chars_not_mem is_ident_or_dot "013" _ eq_refl
                (validateIdentifier_chars _ Hpre)) as H1.
  pose proof (@forall_chars_not_mem is_ident_or_dot "013" _ eq_refl
                (validateIdentifier_chars _ Hmeta)) as H2.
  destruct (String.eqb (semver.PreRelease v) ""),
           (String.eqb (semver.Metadata v) "");
    cbn [strings.mem orb Ascii.eqb Bool.eqb]; rewrite ?H1, ?H2; reflexivity.
Qed.

(** A rendered version, read as a line of a listing, gives itself. *)
Lemma line_result_render (v : semver.Version) :
  well_formed v -> line_result (render v) = [render v].
Proof.
  intros Hv. unfold line_result.
  assert (Hcr : strings.mem "013" (render v) = false).
  { unfold render. cbn [String.append strings.mem orb Ascii.eqb Bool.eqb].
    apply String_no_CR. exact Hv. }
  rewrite (dropCR_id _ Hcr). unfold render at 1.
  cbn [String.append strings.TrimLeft strings.mem Ascii.eqb Bool.eqb orb].
  rewrite (TrimLeft_id _ (String_not_v v)), (NewVersion_String Hv).
  reflexivity.
Qed.

Lemma rendered_read_back (vs : list semver.Version) :
  Forall well_formed vs ->
  Forall (fun s => exists ver,
              well_formed ver
              /\ s = ("v" ++ semver.String_ ver)%string
              /\ semver.NewVersion (semver.String_ ver) = Ok ver)
    (map render vs)
  /\ flat_map line_result (map render vs) = map render vs.
Proof.
  induction 1 as [|ver vs Hver Hvs IH]; cbn [map flat_map].
  - split; constructor.
  - destruct IH as [IH1 IH2]. split.
    + constructor; [|exact IH1].
      exists ver. split; [exact Hver|]. split; [reflexivity|].
      apply NewVersion_String. exact Hver.
    + rewrite (line_result_render Hver), IH2. reflexivity.
Qed.

(** X11.  What [DistVersions] returns reads back as itself.  Every string
    returned is the rendering of a version with non-negative numbers
    below 2^63 and with valid or empty pre-release and metadata; parsing
    the rendering gives that version again; and a listing made of the
    strings returned contributes, line by line, exactly those strings. *)
Theorem DistVersions_output_reads_back
    (srt : sort.Sorter) (env : Env) (dist : string) (sortDesc : bool)
    (out : list string) :
  (forall A (less : sort.Less A) l, Permutation l (srt A less l)) ->
  outcome (DistVersions srt env dist sortDesc) = Ok out ->
  Forall (fun s => exists ver,
              well_formed ver
              /\ s = ("v" ++ semver.String_ ver)%string
              /\ semver.NewVersion (semver.String_ ver) = Ok ver)
    out
  /\ flat_map line_result out = out.
Proof.
  intros Hperm Hout. rewrite DistVersions_cases in Hout. cbv zeta in Hout.
  destruct (outcome (fetch env _)) as [rc|e]; [|discriminate Hout].
  rewrite outcome_pair in Hout.
  destruct (snd (bufio.ScanAll _ _)); [discriminate Hout|].
  injection Hout as <-.
  set (lines := fst (bufio.ScanAll (fst (contents rc)) (snd (contents rc)))).
  assert (Hwf : Forall well_formed (sortVersions srt sortDesc (scanVersions "v" lines))).
  { apply Forall_forall. intros ver Hver.
    eapply Permutation_in in Hver;
      [|apply Permutation_sym, sortVersions_perm, Hperm].
    apply in_scanVersions in Hver. destruct Hver as (line & _ & Hparse).
    exact (NewVersion_well_formed _ Hparse). }
  exact (rendered_read_back Hwf).
Qed.

Lemma DistVersions_output_reads_back_witness :
  let env := listing_env (unlines ["v01.2.3"; "1.0.0-rc.1+build.5"; "v1.0.0-"]) in
  outcome (DistVersions sort.insertionSort env "go-ipfs" false)
  = Ok ["v1.0.0-rc.1+build.5"; "v1.0.0"; "v1.2.3"]
  /\ flat_map line_result ["v1.0.0-rc.1+build.5"; "v1.0.0"; "v1.2.3"]
     = ["v1.0.0-rc.1+build.5"; "v1.0.0"; "v1.2.3"].
Proof.
  cbv zeta.
  assert (H : outcome (DistVersions sort.insertionSort
                         (listing_env (unlines ["v01.2.3"; "1.0.0-rc.1+build.5";
                                                "v1.0.0-"]))
                         "go-ipfs" false)
              = Ok ["v1.0.0-rc.1+build.5"; "v1.0.0"; "v1.2.3"])
    by (vm_compute; reflexivity).
  split; [exact H|].
  exact (proj2 (@DistVersions_output_reads_back sort.insertionSort _ "go-ipfs"
                  false _ (fun A less l => insertionSort_perm less l) H)).
Defined.

Lemma dropCR_append_CR (l : string) :
  bufio.dropCR (l ++ String "013" "") = l.
Proof.
  induction l as [|c l IH]; [reflexivity|].
  cbn [String.append]. destruct l as [|d l'].
  - reflexivity.
  - change (bufio.dropCR (String c (String d l' ++ String "013" "")))
      with (String c (bufio.dropCR (String d l' ++ String "013" ""))).
    rewrite IH. reflexivity.
Qed.

(** X12.  Line ends.  A listing whose lines end in carriage return and
    newline is scanned to the same lines as the listing with plain
    newlines, so [DistVersions] returns the same for both. *)
Theorem DistVersions_tolerates_CRLF
    (srt : sort.Sorter) (env env' : Env) (dist : string) (sortDesc : bool)
    (t t' : list Event) (rc rc' : limitReadCloser Body) (ls : list string) :
  Forall (fun l => listing_line (l ++ String "013" "")
                   /\ strings.mem "013" l = false) ls ->
  fetch env (path_Join env [ipfsDistPath env; dist; distVersions]) = (t, Ok rc) ->
  contents rc = (unlines (map (fun l => l ++ String "013" "")%string ls), None) ->
  fetch env' (path_Join env' [ipfsDistPath env'; dist; distVersions]) = (t', Ok rc') ->
  contents rc' = (unlines ls, None) ->
  fst (bufio.ScanAll (fst (contents rc)) (snd (contents rc))) = ls
  /\ outcome (DistVersions srt env dist sortDesc)
     = outcome (DistVersions srt env' dist sortDesc).
Proof.
  intros Hls Hf Hc Hf' Hc'.
  assert (H1 : Forall listing_line (map (fun l => l ++ String "013" "")%string ls)).
  { apply Forall_map. eapply Forall_impl; [|exact Hls]. intros l [H _]; exact H. }
  assert (H2 : Forall listing_line ls).
  { eapply Forall_impl; [|exact Hls]. intros l [[Hnl Hshort] _].
    rewrite mem_append in Hnl. apply orb_false_iff in Hnl.
    split; [apply Hnl|]. unfold short_line in *. rewrite append_len in Hshort.
    change (strings.len (String "013" "")) with 1 in Hshort. lia. }
  assert (E1 : map bufio.dropCR (map (fun l => l ++ String "013" "")%string ls) = ls).
  { rewrite map_map. rewrite <- (map_id ls) at 2. apply map_ext.
    intros l. apply dropCR_append_CR. }
  assert (E2 : map bufio.dropCR ls = ls).
  { rewrite <- (map_id ls) at 2. apply map_ext_in. intros l Hl.
    apply dropCR_id. rewrite Forall_forall in Hls. apply (Hls l Hl). }
  split.
  - rewrite Hc. cbn [fst snd]. rewrite (ScanAll_unlines H1). cbn [fst]. exact E1.
  - rewrite !DistVersions_cases. cbv zeta.
    rewrite Hf, Hf', !outcome_pair, Hc, Hc'. cbn [fst snd].
    rewrite (ScanAll_unlines H1), (ScanAll_unlines H2). cbn [fst snd].
    rewrite E1, E2. reflexivity.
Qed.

Lemma DistVersions_tolerates_CRLF_witness :
  let ls := ["v0.4.23"; "v0.5.0"] in
  let crlf := unlines (map (fun l => l ++ String "013" "")%string ls) in
  outcome (DistVersions sort.insertionSort (listing_env crlf) "go-ipfs" true)
  = outcome (DistVersions sort.insertionSort (listing_env (unlines ls)) "go-ipfs" true)
  /\ outcome (DistVersions sort.insertionSort (listing_env crlf) "go-ipfs" true)
     = Ok ["v0.5.0"; "v0.4.23"].
Proof.
  cbv zeta.
  assert (HF : Forall (fun l => listing_line (l ++ String "013" "")
                                /\ strings.mem "013" l = false)
                 ["v0.4.23"; "v0.5.0"]).
  { repeat constructor; vm_compute; reflexivity. }
  destruct (@DistVersions_tolerates_CRLF sort.insertionSort
              (listing_env (unlines (map (fun l => l ++ String "013" "")%string
                                       ["v0.4.23"; "v0.5.0"])))
              (listing_env (unlines ["v0.4.23"; "v0.5.0"]))
              "go-ipfs" true _ _ _ _ ["v0.4.23"; "v0.5.0"]
              HF eq_refl eq_refl eq_refl eq_refl) as [_ H].
  split; [exact H|]. vm_compute. reflexivity.
Defined.

(** X13.  The version catalogue only talks to the daemon and the gateway.
    Every event of [DistVersions] and of [LatestDistVersion] is a call to
    the daemon, an HTTP request, a log line or the closing of a stream:
    no file is looked at or written and no command is run; and
    [LatestDistVersion] does nothing that [DistVersions] does not do. *)
Theorem catalogue_uses_transports_only
    (srt : sort.Sorter) (env : Env) (dist : string) (sortDesc : bool) :
  forallb is_transport (trace (DistVersions srt env dist sortDesc)) = true
  /\ forallb is_transport (trace (LatestDistVersion srt env dist)) = true
  /\ trace (LatestDistVersion srt env dist)
     = trace (DistVersions srt env dist false).
Proof.
  assert (H : forall desc,
             forallb is_transport (trace (DistVersions srt env dist desc)) = true).
  { intros desc. rewrite DistVersions_cases. cbv zeta.
    pose proof (fetch_transport_only env
                  (path_Join env [ipfsDistPath env; dist; distVersions])) as Hf.
    destruct (outcome (fetch env _)); rewrite trace_pair; [|exact Hf].
    rewrite forallb_app, Hf. reflexivity. }
  assert (E : trace (LatestDistVersion srt env dist)
              = trace (DistVersions srt env dist false)).
  { rewrite LatestDistVersion_cases.
    destruct (outcome (DistVersions srt env dist false)); reflexivity. }
  split; [apply H|]. split; [rewrite E; apply H|exact E].
Qed.

(** X14.  The limit cuts without a word.  When the source holds more than
    [limit] bytes, copying the stream made by [newLimitReadCloser] into a
    file writes the first [limit] bytes and reports success, with [limit]
    bytes copied, however the source would have gone on: a download that
    is cut at the limit is not told apart from a complete one. *)
Theorem io_Copy_cut_at_limit_succeeds
    (env : Env) (name : string) (b : Body) (limit : Z) :
  0 <= limit < strings.len (pending b) ->
  Write env name (strings.take limit (pending b)) = None ->
  io_Copy env name (newLimitReadCloser b limit)
  = ([EvWrite name (strings.take limit (pending b))], Ok limit).
Proof.
  intros Hlimit Hwrite. unfold io_Copy, contents.
  cbn [newLimitReadCloser io.LimitReader Reader io.N io.R].
  rewrite Hwrite.
  destruct (Z.leb_spec limit (strings.len (pending b))); [|lia].
  rewrite take_len by lia. do 2 f_equal. lia.
Qed.

Lemma io_Copy_cut_at_limit_succeeds_witness :
  let env := listing_env "" in
  let b := {| pending := "0123456789"; failure := Some (ExternalError "reset");
              closed := false |} in
  io_Copy env "/tmp/a" (newLimitReadCloser b 4) = ([EvWrite "/tmp/a" "0123"], Ok 4)
  /\ outcome (io_Copy env "/tmp/a" (newLimitReadCloser b fetchSizeLimit))
     = Err (ExternalError "reset").
Proof.
  cbv zeta. split; [|reflexivity].
  apply (@io_Copy_cut_at_limit_succeeds (listing_env "") "/tmp/a"
           {| pending := "0123456789"; failure := Some (ExternalError "reset");
              closed := false |} 4).
  - vm_compute. split; [discriminate|reflexivity].
  - reflexivity.
Defined.
